(** * A verification model of the portfolio page (src/App.tsx)

    The page keeps two pieces of state (the profile and the repository list),
    fills them with one run of [fetchData], derives the skill list with
    [aggregatedSkills] and renders it, padded from [skillIconMap], as
    [finalSkills].  The definitions below follow the TypeScript source
    statement by statement; the JavaScript operations the source relies on
    (property reads and writes on plain objects, [Object.entries],
    [Array.prototype.sort], [slice], [startsWith]) are modelled in [JS]. *)

From Stdlib Require Import ZArith NArith String Ascii List Sorted Permutation Lia.
From stdpp Require Import base decidable option list strings sorting gmap.

Local Open Scope string_scope.
Local Open Scope Z_scope.
Local Open Scope list_scope.

(** ** JavaScript values and plain objects *)
Module JS.

(** The primitive values that the page stores as skill counts: the type
    annotation promises numbers, string concatenation can produce strings. *)
Inductive Prim :=
| Num (n : Z)
| Str (s : string).

#[global] Instance Prim_eq_dec : EqDecision Prim.
Proof. solve_decision. Defined.

(** What a property read finds on [Object.prototype], the prototype of
    every object written as a literal. *)
Inductive Inherited :=
| NativeFunction (fname : string)   (* a built-in method *)
| PrototypeAccessor.                (* the getter of __proto__: yields Object.prototype *)

(** The result of a property read [o[k]]. *)
Inductive Value (V : Type) :=
| Undefined
| Own (v : V)
| FromPrototype (m : Inherited).
Arguments Undefined {V}.
Arguments Own {V} v.
Arguments FromPrototype {V} m.

(** The methods of [Object.prototype] other than [constructor]; each is a
    function whose name is its property key. *)
Definition prototype_methods : list string :=
  [ "hasOwnProperty"; "isPrototypeOf"; "propertyIsEnumerable";
    "toLocaleString"; "toString"; "valueOf";
    "__defineGetter__"; "__defineSetter__";
    "__lookupGetter__"; "__lookupSetter__" ].

Definition Object_prototype (k : string) : option Inherited :=
  if decide (k = "constructor") then Some (NativeFunction "Object")
  else if decide (k = "__proto__") then Some PrototypeAccessor
  else if decide (k ∈ prototype_methods) then Some (NativeFunction k)
  else None.

(** A plain object: its own enumerable string-keyed properties, in the
    order in which they were created. *)
Definition Obj (V : Type) := list (string * V).

Fixpoint own {V} (o : Obj V) (k : string) : option V :=
  match o with
  | [] => None
  | (k', v) :: o' => if decide (k' = k) then Some v else own o' k
  end.

(** [o[k]]: the own property, else the prototype's, else undefined. *)
Definition get {V} (o : Obj V) (k : string) : Value V :=
  match own o k with
  | Some v => Own v
  | None =>
      match Object_prototype k with
      | Some m => FromPrototype m
      | None => Undefined
      end
  end.

(** Writing an own data property: an existing key keeps its place, a new
    key is created last. *)
Fixpoint put {V} (o : Obj V) (k : string) (v : V) : Obj V :=
  match o with
  | [] => [(k, v)]
  | (k', v') :: o' =>
      if decide (k' = k) then (k', v) :: o' else (k', v') :: put o' k v
  end.

(** [o[k] = v] for a primitive [v].  The key [__proto__] resolves to the
    accessor on [Object.prototype], whose setter ignores a value that is
    neither an object nor null; every other inherited member is a
    writable data property, so the write creates an own property. *)
Definition set (o : Obj Prim) (k : string) (v : Prim) : Obj Prim :=
  if decide (k = "__proto__") then o else put o k v.

(** [Function.prototype.toString] of a built-in function (the text V8
    prints; every engine yields a string of this NativeFunction form). *)
Definition function_source (fname : string) : string :=
  "function " +:+ fname +:+ "() { [native code] }".

(** [(v || 0) + 1].  [||] keeps a truthy left operand; [+] adds numbers
    and concatenates once an operand converts to a string. *)
Definition or_zero_plus_one (v : Value Prim) : Prim :=
  match v with
  | Undefined => Num 1                                    (* 0 + 1 *)
  | Own (Num n) => if decide (n = 0) then Num 1 else Num (n + 1)
  | Own (Str s) => if decide (s = "") then Num 1 else Str (s +:+ "1")
  | FromPrototype (NativeFunction f) => Str (function_source f +:+ "1")
  | FromPrototype PrototypeAccessor => Str ("[object Object]" +:+ "1")
  end.

(** *** Property order of [Object.entries] *)

Definition digit (c : ascii) : option N :=
  let n := N_of_ascii c in
  if ((48 <=? n) && (n <=? 57))%N then Some (n - 48)%N else None.

Fixpoint digits (s : string) (acc : N) : option N :=
  match s with
  | EmptyString => Some acc
  | String c s' =>
      match digit c with
      | Some d => digits s' (10 * acc + d)%N
      | None => None
      end
  end.

(** An array index is a canonical numeric string below 2^32 - 1. *)
Definition array_index (k : string) : option N :=
  match k with
  | EmptyString => None
  | String c rest =>
      if decide (c = "0"%char ∧ rest ≠ EmptyString) then None
      else match digits k 0 with
           | Some n => if (n <=? 4294967294)%N then Some n else None
           | None => None
           end
  end.

(** *** A stable sort

    [stable_sort keep] orders a list so that [keep x y] holds of
    neighbours, leaving elements that already satisfy it in their
    original order. *)
Section StableSort.
Context {A : Type} (keep : A → A → bool).

Fixpoint insert_before (x : A) (l : list A) : list A :=
  match l with
  | [] => [x]
  | y :: l' => if keep x y then x :: y :: l' else y :: insert_before x l'
  end.

Fixpoint stable_sort (l : list A) : list A :=
  match l with
  | [] => []
  | x :: l' => insert_before x (stable_sort l')
  end.
End StableSort.

(** Own keys are listed with the array indices first, in ascending
    numeric order, and then the other strings in creation order. *)
Definition is_index {V} (e : string * V) : bool :=
  bool_decide (is_Some (array_index e.1)).

Definition index_le {V} (e1 e2 : string * V) : bool :=
  match array_index e1.1, array_index e2.1 with
  | Some i, Some j => (i <=? j)%N
  | _, _ => true
  end.

Definition Object_entries {V} (o : Obj V) : list (string * V) :=
  stable_sort index_le (List.filter is_index o)
    ++ List.filter (λ e, negb (is_index e)) o.

(** *** [Array.prototype.sort] with a comparator

    The comparator's result is a number; NaN counts as +0.  The sort is
    stable, so with a consistent comparator its result is the one
    computed here.  With an inconsistent one (a comparator that returns
    NaN for some pairs only) the standard leaves the order to the engine,
    and engines differ from the order computed here; what is proved about
    the order of a sorted list is therefore stated where the comparator is
    consistent. *)
Inductive Number :=
| NaN
| Finite (z : Z).

Definition SortCompare {A} (comparefn : A → A → Number) (x y : A) : Z :=
  match comparefn x y with
  | NaN => 0
  | Finite z => z
  end.

Definition Array_sort {A} (comparefn : A → A → Number) (l : list A) : list A :=
  stable_sort (λ x y, SortCompare comparefn x y <=? 0) l.

(** [l.slice(0, n)] *)
Definition slice0 {A} (n : nat) (l : list A) : list A := take n l.

(** [a - b] on count values.  A string operand is converted to a number;
    the strings that the counting loop stores all start with the text of a
    function (lemma [skillCounts_strings]), which is no numeric literal, so
    the conversion gives NaN. *)
Definition minus (a b : Prim) : Number :=
  match a, b with
  | Num x, Num y => Finite (x - y)
  | _, _ => NaN
  end.

(** [s.startsWith(p)] *)
Definition startsWith (p s : string) : bool := String.prefix p s.

End JS.

(** ** The data model (interfaces [GitHubUser] and [GitHubRepo]) *)

Record GitHubUser := {
  avatar_url : string;
  user_name : string;
  bio : string;
  followers : Z;
  following : Z;
  location : string;
  blog : string;
}.

Record License := { license_name : string }.

(** [language] is null for a repository without a detected language. *)
Record GitHubRepo := {
  repo_id : Z;
  repo_name : string;
  description : string;
  stargazers_count : Z;
  forks_count : Z;
  language : option string;
  open_issues_count : Z;
  license : option License;
  html_url : string;
  updated_at : string;
  topics : list string;
}.

(** An entry of the aggregated skill list, [{ name, count }].  The count is
    annotated as a number; it holds whatever the counting loop stored. *)
Record Skill := {
  name : string;
  count : JS.Prim;
}.

#[global] Instance Skill_eq_dec : EqDecision Skill.
Proof. solve_decision. Defined.

(** ** The skill aggregator ([aggregatedSkills]) *)

(** [skillCounts[k] = (skillCounts[k] || 0) + 1] *)
Definition increment (skillCounts : JS.Obj JS.Prim) (k : string) : JS.Obj JS.Prim :=
  JS.set skillCounts k (JS.or_zero_plus_one (JS.get skillCounts k)).

(** [if (repo.language) ...]: null and the empty string are falsy. *)
Definition count_language (skillCounts : JS.Obj JS.Prim) (repo : GitHubRepo)
  : JS.Obj JS.Prim :=
  match language repo with
  | Some l => if decide (l = "") then skillCounts else increment skillCounts l
  | None => skillCounts
  end.

(** [repo.topics.forEach(...)] *)
Definition count_topics (skillCounts : JS.Obj JS.Prim) (repo : GitHubRepo)
  : JS.Obj JS.Prim :=
  fold_left increment (topics repo) skillCounts.

(** The body of [repos.forEach(...)]. *)
Definition count_repo (skillCounts : JS.Obj JS.Prim) (repo : GitHubRepo)
  : JS.Obj JS.Prim :=
  count_topics (count_language skillCounts repo) repo.

(** [const skillCounts = {}] after the loop over the repositories. *)
Definition skillCounts (repos : list GitHubRepo) : JS.Obj JS.Prim :=
  fold_left count_repo repos [].

Definition to_skill (e : string * JS.Prim) : Skill :=
  {| name := e.1; count := e.2 |}.

(** The comparator [(a, b) => b.count - a.count]. *)
Definition by_count (a b : Skill) : JS.Number := JS.minus (count b) (count a).

Definition aggregatedSkills (repos : list GitHubRepo) : list Skill :=
  JS.Array_sort by_count (map to_skill (JS.Object_entries (skillCounts repos))).

(** ** The skills section ([skillIconMap], [finalSkills]) *)

(** A JSX icon element: the component, its class and its size. *)
Record Icon := {
  component : string;
  className : string;
  icon_size : Z;   (* the [size] prop *)
}.

Definition skillIconMap : JS.Obj Icon :=
  [ ("JavaScript", {| component := "FaJsSquare"; className := "text-yellow-500"; icon_size := 20 |});
    ("TypeScript", {| component := "FaJsSquare"; className := "text-blue-400"; icon_size := 20 |});
    ("React", {| component := "FaReact"; className := "text-blue-600"; icon_size := 20 |});
    ("Node.js", {| component := "FaNode"; className := "text-green-600"; icon_size := 20 |});
    ("TailwindCSS", {| component := "FaCss3Alt"; className := "text-blue-300"; icon_size := 20 |});
    ("PostgreSQL", {| component := "FaDatabase"; className := "text-blue-800"; icon_size := 20 |});
    ("HTML5", {| component := "FaHtml5"; className := "text-red-600"; icon_size := 20 |});
    ("Git", {| component := "FaGitAlt"; className := "text-gray-700"; icon_size := 20 |});
    ("Python", {| component := "FaPython"; className := "text-blue-400"; icon_size := 20 |}) ].

Definition FaCode : Icon :=
  {| component := "FaCode"; className := "text-gray-700"; icon_size := 20 |}.

(** What ends up in the [icon] slot: an element, or whatever an inherited
    name resolved to. *)
Inductive IconSlot :=
| Jsx (i : Icon)
| Member (m : JS.Inherited).

(** [skillIconMap[name] || <FaCode ... />]: elements, functions and objects
    are all truthy. *)
Definition icon_or_FaCode (v : JS.Value Icon) : IconSlot :=
  match v with
  | JS.Undefined => Jsx FaCode
  | JS.Own i => Jsx i
  | JS.FromPrototype m => Member m
  end.

Record DisplaySkill := {
  skill_name : string;
  icon : IconSlot;
}.

(** [new Set(aggregatedSkills.map((s) => s.name))] *)
Definition aggregatedSet (aggregated : list Skill) : gset string :=
  list_to_set (name <$> aggregated).

Definition mostUsedSkills (aggregated : list Skill) : list DisplaySkill :=
  (λ s, {| skill_name := name s;
           icon := icon_or_FaCode (JS.get skillIconMap (name s)) |}) <$> aggregated.

Definition remainingSkills (aggregated : list Skill) : list DisplaySkill :=
  (λ e, {| skill_name := e.1; icon := Jsx e.2 |})
    <$> filter (λ e, e.1 ∉ aggregatedSet aggregated)
          (JS.Object_entries skillIconMap).

Definition finalSkills (repos : list GitHubRepo) : list DisplaySkill :=
  mostUsedSkills (aggregatedSkills repos) ++ remainingSkills (aggregatedSkills repos).

(** ** The aggregator over a store

    The same closure, with the state it can reach made explicit: the
    members of [Object.prototype], a mutable global that every property
    read and write on a plain object consults, and the plain objects
    allocated so far, among which the closure places its own
    ([const skillCounts = {}]).  A member of the prototype is a writable
    data property holding a built-in function, or the accessor that the
    standard prototype has under [__proto__]. *)
Module Store.

Record state := {
  prototype : gmap string JS.Inherited;
  objects : gmap positive (JS.Obj JS.Prim);
}.


(** [o[k]] where the prototype holds the members [P]. *)
Definition get (P : gmap string JS.Inherited) (o : JS.Obj JS.Prim) (k : string)
  : JS.Value JS.Prim :=
  match JS.own o k with
  | Some v => JS.Own v
  | None =>
      match P !! k with
      | Some m => JS.FromPrototype m
      | None => JS.Undefined
      end
  end.

(** [o[k] = v] for a primitive [v]: an own property is overwritten;
    otherwise an inherited accessor swallows the value and anything else
    lets the write create an own property. *)
Definition set (P : gmap string JS.Inherited) (o : JS.Obj JS.Prim) (k : string)
    (v : JS.Prim) : JS.Obj JS.Prim :=
  match JS.own o k with
  | Some _ => JS.put o k v
  | None =>
      match P !! k with
      | Some JS.PrototypeAccessor => o
      | _ => JS.put o k v
      end
  end.

Definition alloc (σ : state) : positive * state :=
  let l := fresh (dom (objects σ)) in
  (l, {| prototype := prototype σ; objects := <[l := []]> (objects σ) |}).

Definition read (σ : state) (l : positive) (k : string) : JS.Value JS.Prim :=
  match objects σ !! l with
  | Some o => get (prototype σ) o k
  | None => JS.Undefined
  end.

Definition write (σ : state) (l : positive) (k : string) (v : JS.Prim) : state :=
  {| prototype := prototype σ;
     objects := alter (λ o, set (prototype σ) o k v) l (objects σ) |}.

(** [skillCounts[k] = (skillCounts[k] || 0) + 1] *)
Definition increment (l : positive) (σ : state) (k : string) : state :=
  write σ l k (JS.or_zero_plus_one (read σ l k)).

Definition count_repo (l : positive) (σ : state) (repo : GitHubRepo) : state :=
  let σ1 :=
    match language repo with
    | Some lang => if decide (lang = "") then σ else increment l σ lang
    | None => σ
    end in
  fold_left (increment l) (topics repo) σ1.

Definition entries (σ : state) (l : positive) : list (string * JS.Prim) :=
  match objects σ !! l with
  | Some o => JS.Object_entries o
  | None => []
  end.

Definition aggregatedSkills (repos : list GitHubRepo) (σ : state)
  : list Skill * state :=
  let '(l, σ0) := alloc σ in
  let σ1 := fold_left (count_repo l) repos σ0 in
  (JS.Array_sort by_count (to_skill <$> entries σ1 l), σ1).


End Store.

(** ** The data fetcher ([fetchData]) *)

(** The build-time configuration ([import.meta.env]). *)
Record Config := {
  VITE_GITHUB_USERNAME : string;
  VITE_GITHUB_TOKEN : option string;
}.

(** How an awaited operation ends: with a value, or by throwing. *)
Inductive Completion (A : Type) :=
| Normal (a : A)
| Throw (reason : string).
Arguments Normal {A} a.
Arguments Throw {A} reason.

(** A parsed body that is not the expected array, e.g. an error object. *)
Inductive Json :=
| JNull
| JBool (b : bool)
| JNumber (n : Z)
| JString (s : string)
| JObject (fields : list (string * string)).

(** The parsed body of the repository request: an array, which the source
    casts to [GitHubRepo[]], or something else. *)
Inductive ReposBody :=
| ArrayOf (data : list GitHubRepo)
| NotArray (v : Json).

Definition Array_isArray (data : ReposBody) : bool :=
  match data with
  | ArrayOf _ => true
  | NotArray _ => false
  end.

Record Response (B : Type) := {
  status : Z;
  json : Completion B;
}.
Arguments status {B} r.
Arguments json {B} r.

(** [response.ok]: the status is in the range 200-299. *)
Definition ok {B} (r : Response B) : bool :=
  (200 <=? status r) && (status r <=? 299).

Record Request := {
  url : string;
  headers : JS.Obj string;
}.

(** The remote API: what each of the two requests is answered with. *)
Record Network := {
  users_endpoint : Request → Completion (Response GitHubUser);
  repos_endpoint : Request → Completion (Response ReposBody);
}.

Inductive Detail :=
| OfStatus (s : Z)
| OfData (v : Json)
| OfError (reason : string).

Inductive Event :=
| Fetch (r : Request)
| ConsoleError (message : string) (d : Detail).

(** The two pieces of page state ([useState]). *)
Record PageState := {
  user : option GitHubUser;
  repos : list GitHubRepo;
}.

Record World := {
  page : PageState;
  events : list Event;     (* oldest first *)
}.

(** An asynchronous computation: it threads the world and may throw. *)
Definition Async (A : Type) : Type := World → Completion A * World.

Definition ret {A} (a : A) : Async A := λ w, (Normal a, w).

Definition bind {A B} (m : Async A) (k : A → Async B) : Async B :=
  λ w, match m w with
       | (Normal a, w') => k a w'
       | (Throw e, w') => (Throw e, w')
       end.

Definition try_catch {A} (body : Async A) (handler : string → Async A) : Async A :=
  λ w, match body w with
       | (Normal a, w') => (Normal a, w')
       | (Throw e, w') => handler e w'
       end.

#[global] Instance Async_ret : MRet Async := @ret.
#[global] Instance Async_bind : MBind Async := λ A B k m, bind m k.

Definition log (e : Event) : Async unit :=
  λ w, (Normal tt, {| page := page w; events := events w ++ [e] |}).

Definition await {A} (c : Completion A) : Async A := λ w, (c, w).

Definition fetch_user (net : Network) (r : Request) : Async (Response GitHubUser) :=
  log (Fetch r) ;; await (users_endpoint net r).

Definition fetch_repos (net : Network) (r : Request) : Async (Response ReposBody) :=
  log (Fetch r) ;; await (repos_endpoint net r).

Definition console_error (message : string) (d : Detail) : Async unit :=
  log (ConsoleError message d).

Definition setUser (u : GitHubUser) : Async unit :=
  λ w, (Normal tt,
        {| page := {| user := Some u; repos := repos (page w) |}; events := events w |}).

Definition setRepos (l : list GitHubRepo) : Async unit :=
  λ w, (Normal tt,
        {| page := {| user := user (page w); repos := l |}; events := events w |}).

(** The comparator [(a, b) => b.stargazers_count - a.stargazers_count]. *)
Definition by_stars (a b : GitHubRepo) : JS.Number :=
  JS.Finite (stargazers_count b - stargazers_count a).

(** [if (key)]: an absent or empty token is falsy. *)
Definition request_headers (key : option string) : JS.Obj string :=
  let headers := [("Accept", "application/vnd.github.mercy-preview+json")] in
  match key with
  | Some k => if decide (k = "") then headers
              else JS.put headers "Authorization" ("token " +:+ k)
  | None => headers
  end.

Definition user_request (env : Config) : Request :=
  {| url := "https://api.github.com/users/" +:+ VITE_GITHUB_USERNAME env;
     headers := request_headers (VITE_GITHUB_TOKEN env) |}.

Definition repos_request (env : Config) : Request :=
  {| url := "https://api.github.com/users/" +:+ VITE_GITHUB_USERNAME env
              +:+ "/repos?per_page=6&sort=updated";
     headers := request_headers (VITE_GITHUB_TOKEN env) |}.

(** Step 1 of the [try] block: fetch the user profile. *)
Definition fetch_profile (env : Config) (net : Network) : Async unit :=
  userResponse ← fetch_user net (user_request env);
  if negb (ok userResponse)
  then console_error "GitHub user fetch error:" (OfStatus (status userResponse))
  else userData ← await (json userResponse); setUser userData.

(** Step 2 of the [try] block: fetch the repositories. *)
Definition fetch_repositories (env : Config) (net : Network) : Async unit :=
  reposResponse ← fetch_repos net (repos_request env);
  if negb (ok reposResponse)
  then console_error "GitHub repos fetch error:" (OfStatus (status reposResponse))
  else data ← await (json reposResponse);
       match data with
       | ArrayOf data =>
           let sorted := JS.Array_sort by_stars data in
           setRepos (JS.slice0 6 sorted)
       | NotArray v =>
           console_error "Unexpected response from GitHub API:" (OfData v) ;;
           setRepos []
       end.

(** The [catch] block: it only reports. *)
Definition handler (err : string) : Async unit :=
  console_error "Unexpected error fetching GitHub data:" (OfError err).

Definition fetchData (env : Config) (net : Network) : Async unit :=
  try_catch (fetch_profile env net ;; fetch_repositories env net) handler.

(** The state at mount ([useState(null)], [useState([])]) and after the
    effect has run once. *)
Definition initial : World :=
  {| page := {| user := None; repos := [] |}; events := [] |}.

Definition mounted (env : Config) (net : Network) : World :=
  (fetchData env net initial).2.

(** ** What the page renders from its state *)

(** [user ? user.name : "Sohel Ansari"] *)
Definition hero_heading (u : option GitHubUser) : string :=
  match u with
  | Some u => user_name u
  | None => "Sohel Ansari"
  end.

(** [user && <motion.img src={user.avatar_url} />] and [user && user.bio] *)
Definition hero_avatar (u : option GitHubUser) : option string :=
  avatar_url <$> u.

Definition hero_bio (u : option GitHubUser) : option string :=
  bio <$> u.

Definition about_placeholder : string :=
  "I’m a frontend developer specializing in crafting engaging, accessible, and intuitive user interfaces. With a focus on React, TypeScript, and TailwindCSS, I turn ideas into polished products that users love.".

Definition about_text (u : option GitHubUser) : string :=
  match u with
  | Some u => bio u
  | None => about_placeholder
  end.

(** [user && user.blog && <a href={...}>]: the link's target, if rendered. *)
Definition blog_link (u : option GitHubUser) : option string :=
  match u with
  | Some u =>
      if decide (blog u = "") then None
      else Some (if JS.startsWith "http" (blog u) then blog u
                 else "https://" +:+ blog u)
  | None => None
  end.

(** One card of the project grid ([repos.map(...)]). *)
Record Card := {
  key : Z;
  title : string;
  stars : Z;
  href : string;
}.

Definition project_grid (s : PageState) : list Card :=
  (λ repo, {| key := repo_id repo; title := repo_name repo;
              stars := stargazers_count repo; href := html_url repo |})
    <$> repos s.

(** Step 1 completes: the profile request is answered and, if the answer
    is a success, its body parses. *)
Definition profile_completes (env : Config) (net : Network) : Prop :=
  ∃ r, users_endpoint net (user_request env) = Normal r
       ∧ (ok r = true → ∃ u, json r = Normal u).

(** ** Vocabulary of the specification *)

(** The keys that one repository makes the aggregator count, in order:
    its language if truthy, then its topics. *)
Definition counted_keys (repo : GitHubRepo) : list string :=
  match language repo with
  | Some l => if decide (l = "") then [] else [l]
  | None => []
  end ++ topics repo.

(** The number of repositories whose primary language is [n]. *)
Definition language_uses (n : string) (repos : list GitHubRepo) : nat :=
  length (filter (λ r, language r = Some n) repos).

(** The number of occurrences of [n] among all topic lists. *)
Definition topic_uses (n : string) (repos : list GitHubRepo) : nat :=
  count_occ string_dec (repos ≫= topics) n.

(** The count the specification gives a name. *)
Definition claimed_count (n : string) (repos : list GitHubRepo) : nat :=
  (language_uses n repos + topic_uses n repos)%nat.

(** The same, an empty language not being a language. *)
Definition occurrences (n : string) (repos : list GitHubRepo) : nat :=
  ((if decide (n = "") then 0 else language_uses n repos) + topic_uses n repos)%nat.

(** The distinct names observed in a repository list. *)
Definition observed_names (repos : list GitHubRepo) : gset string :=
  list_to_set (repos ≫= counted_keys).

(** No language and no topic is the name of a member of [Object.prototype]. *)
Definition plain_names (repos : list GitHubRepo) : Prop :=
  ∀ r k, r ∈ repos → k ∈ counted_keys r → JS.Object_prototype k = None.

(** Counts are numbers and do not increase from [a] to [b]. *)
Definition count_desc (a b : Skill) : Prop :=
  ∃ x y, count a = JS.Num x ∧ count b = JS.Num y ∧ y ≤ x.

(** Star counts do not increase from [a] to [b]. *)
Definition stars_desc (a b : GitHubRepo) : Prop :=
  stargazers_count b ≤ stargazers_count a.

(** ** Sample inputs *)

(** A repository of which only the language and the topics matter. *)
Definition repo_of (lang : option string) (ts : list string) : GitHubRepo :=
  {| repo_id := 0; repo_name := ""; description := ""; stargazers_count := 0;
     forks_count := 0; language := lang; open_issues_count := 0;
     license := None; html_url := ""; updated_at := ""; topics := ts |}.

Definition sample_env : Config :=
  {| VITE_GITHUB_USERNAME := "sohel22z"; VITE_GITHUB_TOKEN := None |}.

(** A repository of which only the star count matters. *)
Definition starred (n : Z) : GitHubRepo :=
  {| repo_id := n; repo_name := "repo"; description := ""; stargazers_count := n;
     forks_count := 0; language := None; open_issues_count := 0;
     license := None; html_url := ""; updated_at := ""; topics := [] |}.

Definition seven : list GitHubRepo :=
  [starred 1; starred 5; starred 3; starred 4; starred 9; starred 2; starred 7].

Definition not_found {B} : Response B :=
  {| status := 404; json := Throw "Unexpected token" |}.

Definition sample_user : GitHubUser :=
  {| avatar_url := "https://avatars.githubusercontent.com/u/1"; user_name := "Sohel";
     bio := "Developer"; followers := 3; following := 4; location := "";
     blog := "sohel22z.github.io" |}.

(** The profile request is refused; the repository request succeeds. *)
Definition profile_refused : Network :=
  {| users_endpoint := λ _, Normal not_found;
     repos_endpoint := λ _, Normal {| status := 200; json := Normal (ArrayOf seven) |} |}.

(** The profile request throws; the repository request would succeed. *)
Definition profile_unreachable : Network :=
  {| users_endpoint := λ _, Throw "Failed to fetch";
     repos_endpoint := λ _, Normal {| status := 200; json := Normal (ArrayOf seven) |} |}.

(** Both requests succeed; the second is answered with an error object. *)
Definition error_object : Network :=
  {| users_endpoint := λ _, Normal {| status := 200; json := Normal sample_user |};
     repos_endpoint := λ _, Normal {| status := 200;
        json := Normal (NotArray (JObject [("message", "Not Found")])) |} |}.

(** Both requests succeed. *)
Definition all_well : Network :=
  {| users_endpoint := λ _, Normal {| status := 200; json := Normal sample_user |};
     repos_endpoint := λ _, Normal {| status := 200; json := Normal (ArrayOf seven) |} |}.

(** The profile request succeeds; the repository request is refused. *)
Definition repos_refused : Network :=
  {| users_endpoint := λ _, Normal {| status := 200; json := Normal sample_user |};
     repos_endpoint := λ _, Normal {| status := 403; json := Normal (NotArray JNull) |} |}.

(** The Go/cli example of the specification. *)
Definition go_cli : list GitHubRepo :=
  [repo_of (Some "Go") ["cli"]; repo_of (Some "Go") []].

(** A repository with an empty language and a topic that names a member of
    [Object.prototype]. *)
Definition odd_names : list GitHubRepo :=
  [repo_of (Some "") ["constructor"]].

(** A repository that uses every name of the lookup table as a topic, and
    besides has an empty language and the topic [__proto__]. *)
Definition crowded : list GitHubRepo :=
  [repo_of (Some "") (skillIconMap.*1 ++ ["__proto__"])].

(** The names of a repository list as the specification counts them: every
    language and every topic. *)
Definition claimed_names (repos : list GitHubRepo) : gset string :=
  list_to_set (repos ≫= λ r, option_list (language r) ++ topics r).

(** ** The project grid, card by card *)

(** What one card of the grid shows ([repos.map((repo) => ...)]); the
    optional parts are rendered under the guards of the source.  The date
    line is given by the timestamp that is handed to [Date]. *)
Record ProjectCard := {
  card_key : Z;                        (* key={repo.id} *)
  card_title : string;                 (* {repo.name} *)
  card_description : option string;    (* repo.description && <p> *)
  language_badge : option string;      (* repo.language && <span> *)
  license_badge : option string;       (* repo.license && {repo.license.name} *)
  card_stars : Z;
  card_forks : Z;
  card_issues : Z;
  topic_chips : list string;           (* repo.topics.length > 0 && chips *)
  card_updated : string;               (* new Date(repo.updated_at) *)
  card_link : string;                  (* href={repo.html_url} *)
}.

(** [s && ...] on a string: the empty string renders nothing. *)
Definition truthy_string (s : string) : option string :=
  if decide (s = "") then None else Some s.

Definition render_card (repo : GitHubRepo) : ProjectCard :=
  {| card_key := repo_id repo;
     card_title := repo_name repo;
     card_description := truthy_string (description repo);
     language_badge := language repo ≫= truthy_string;
     license_badge := license_name <$> license repo;
     card_stars := stargazers_count repo;
     card_forks := forks_count repo;
     card_issues := open_issues_count repo;
     topic_chips := topics repo;
     card_updated := updated_at repo;
     card_link := html_url repo |}.

Definition project_cards (s : PageState) : list ProjectCard :=
  render_card <$> repos s.

(** ** Vocabulary for traces and orders *)

(** The requests among some events, oldest first. *)
Definition requests (es : list Event) : list Request :=
  omap (λ e, match e with Fetch r => Some r | ConsoleError _ _ => None end) es.

(** The error reports among some events, oldest first. *)
Definition reports (es : list Event) : list (string * Detail) :=
  omap (λ e, match e with ConsoleError m d => Some (m, d) | Fetch _ => None end) es.

(** Both requests are answered with a success whose body parses, the second
    body being an array. *)
Definition fully_succeeds (env : Config) (net : Network) : Prop :=
  ∃ r1 u r2 data,
    users_endpoint net (user_request env) = Normal r1 ∧ ok r1 = true
    ∧ json r1 = Normal u
    ∧ repos_endpoint net (repos_request env) = Normal r2 ∧ ok r2 = true
    ∧ json r2 = Normal (ArrayOf data).

(** [x] stands somewhere before [y] in [l]. *)
Definition precedes {A} (x y : A) (l : list A) : Prop :=
  ∃ l1 l2 l3, l = l1 ++ x :: l2 ++ y :: l3.

(** More sample inputs. *)

(** The profile answer is a success whose body does not parse. *)
Definition profile_garbled : Network :=
  {| users_endpoint := λ _, Normal {| status := 200; json := Throw "Unexpected token <" |};
     repos_endpoint := λ _, Normal {| status := 200; json := Normal (ArrayOf seven) |} |}.

(** The profile request succeeds; the repository request throws. *)
Definition repos_unreachable : Network :=
  {| users_endpoint := λ _, Normal {| status := 200; json := Normal sample_user |};
     repos_endpoint := λ _, Throw "Failed to fetch" |}.

Definition with_token : Config :=
  {| VITE_GITHUB_USERNAME := "sohel22z"; VITE_GITHUB_TOKEN := Some "ghp_abc" |}.

(** Two repositories with the same star count around one with more. *)
Definition tied : list GitHubRepo :=
  [ {| repo_id := 1; repo_name := "first"; description := ""; stargazers_count := 3;
       forks_count := 0; language := None; open_issues_count := 0;
       license := None; html_url := ""; updated_at := ""; topics := [] |};
    {| repo_id := 2; repo_name := "top"; description := ""; stargazers_count := 8;
       forks_count := 0; language := None; open_issues_count := 0;
       license := None; html_url := ""; updated_at := ""; topics := [] |};
    {| repo_id := 3; repo_name := "second"; description := ""; stargazers_count := 3;
       forks_count := 0; language := None; open_issues_count := 0;
       license := None; html_url := ""; updated_at := ""; topics := [] |} ].

(** One repository whose three names are counted once each. *)
Definition three_names : list GitHubRepo :=
  [repo_of (Some "Go") ["cli"; "api"]].

(** A counted name beside a topic that names a prototype member. *)
Definition mixed_names : list GitHubRepo :=
  [repo_of (Some "Go") ["constructor"; "Go"]].




(** * Properties *)

(** ** The stable sort *)
Section StableSortFacts.
Context {A : Type} (keep : A → A → bool).

Lemma insert_before_perm x l : JS.insert_before keep x l ≡ₚ x :: l.
Proof.
  induction l as [|y l IH]; simpl; [done|].
  destruct (keep x y); [done|].
  rewrite IH. apply Permutation_swap.
Qed.

Lemma stable_sort_perm l : JS.stable_sort keep l ≡ₚ l.
Proof.
  induction l as [|x l IH]; simpl; [done|].
  by rewrite insert_before_perm, IH.
Qed.

(** When of any two elements one may stay before the other, the result
    is sorted for "may stay before". *)
Hypothesis keep_total : ∀ x y, keep x y = false → keep y x = true.

Lemma insert_before_HdRel x a l :
  keep a x = true → HdRel (λ u v, keep u v = true) a l →
  HdRel (λ u v, keep u v = true) a (JS.insert_before keep x l).
Proof.
  intros Hax Hal. destruct l as [|y l]; simpl.
  - by constructor.
  - destruct (keep x y); constructor; [done|]. by inversion Hal.
Qed.

Lemma insert_before_Sorted x l :
  Sorted (λ u v, keep u v = true) l →
  Sorted (λ u v, keep u v = true) (JS.insert_before keep x l).
Proof.
  induction 1 as [|y l Hl IH Hhd]; simpl.
  - repeat constructor.
  - destruct (keep x y) eqn:Hxy.
    + constructor; [by constructor|by constructor].
    + constructor; [done|]. apply insert_before_HdRel; [|done].
      by apply keep_total.
Qed.

Lemma stable_sort_Sorted l :
  Sorted (λ u v, keep u v = true) (JS.stable_sort keep l).
Proof.
  induction l; simpl; [constructor|]. by apply insert_before_Sorted.
Qed.
End StableSortFacts.

Lemma Array_sort_perm {A} (comparefn : A → A → JS.Number) l :
  JS.Array_sort comparefn l ≡ₚ l.
Proof. apply stable_sort_perm. Qed.

(** ** Plain objects *)
Section ObjFacts.
Context {V : Type}.
Implicit Types (o : JS.Obj V) (k : string) (v : V).

Lemma own_put o k v k' :
  JS.own (JS.put o k v) k' = if decide (k = k') then Some v else JS.own o k'.
Proof.
  induction o as [|[k0 v0] o IH]; simpl.
  - by repeat case_decide.
  - destruct (decide (k0 = k)) as [->|Hk0]; simpl.
    + by destruct (decide (k = k')).
    + rewrite IH. destruct (decide (k0 = k')) as [->|]; [|done].
      by rewrite decide_False.
Qed.

Lemma own_None o k : JS.own o k = None ↔ k ∉ o.*1.
Proof.
  induction o as [|[k0 v0] o IH]; simpl.
  - split; [intros _; apply not_elem_of_nil|done].
  - rewrite not_elem_of_cons. destruct (decide (k0 = k)) as [->|Hne].
    + split; [done|]. by intros [? _].
    + rewrite IH. split; [by intros ?; split|by intros [_ ?]].
Qed.

Lemma own_Some o k v : NoDup o.*1 → JS.own o k = Some v ↔ (k, v) ∈ o.
Proof.
  induction o as [|[k0 v0] o IH]; simpl; intros Hnd.
  - split; [done|]. by intros ?%elem_of_nil.
  - apply NoDup_cons in Hnd as [Hk0 Hnd]. rewrite elem_of_cons.
    destruct (decide (k0 = k)) as [->|Hne].
    + split; [intros [= ->]; by left|].
      intros [[= ->]|Hin]; [done|].
      exfalso. apply Hk0. apply list_elem_of_fmap. by exists (k, v).
    + rewrite IH by done. split; [by right|].
      intros [[= -> ->]|?]; [by destruct Hne|done].
Qed.

Lemma put_keys o k v : (JS.put o k v).*1 ≡ₚ
  if decide (k ∈ o.*1) then o.*1 else k :: o.*1.
Proof.
  induction o as [|[k0 v0] o IH].
  - destruct (decide (k ∈ [].*1)) as [Hin|]; [by apply elem_of_nil in Hin|done].
  - cbn [JS.put]. rewrite fmap_cons. cbn [fst].
    destruct (decide (k0 = k)) as [->|Hne].
    + rewrite fmap_cons. cbn [fst].
      destruct (decide (k ∈ k :: o.*1)) as [|Hnin]; [done|].
      destruct Hnin. apply elem_of_cons. by left.
    + rewrite fmap_cons, IH. cbn [fst].
      destruct (decide (k ∈ o.*1)) as [Hin|Hnin],
               (decide (k ∈ k0 :: o.*1)) as [Hin'|Hnin']; try done.
      * destruct Hnin'. apply elem_of_cons. by right.
      * apply elem_of_cons in Hin' as [->|?]; [by destruct Hne|by destruct Hnin].
      * apply Permutation_swap.
Qed.

Lemma put_NoDup o k v : NoDup o.*1 → NoDup (JS.put o k v).*1.
Proof.
  intros Hnd. rewrite put_keys. case_decide; [done|]. by apply NoDup_cons.
Qed.

Lemma filter_split_perm (p : string * V → bool) o :
  List.filter p o ++ List.filter (λ e, negb (p e)) o ≡ₚ o.
Proof.
  induction o as [|e o IH]; simpl; [done|].
  destruct (p e); simpl.
  - by rewrite IH.
  - rewrite <- Permutation_middle. by rewrite IH.
Qed.

(** [Object.entries] lists every own property once. *)
Lemma Object_entries_perm o : JS.Object_entries o ≡ₚ o.
Proof.
  unfold JS.Object_entries. rewrite stable_sort_perm. apply filter_split_perm.
Qed.
End ObjFacts.

(** ** The counting loop *)

Lemma count_repo_keys o r :
  count_repo o r = fold_left increment (counted_keys r) o.
Proof.
  unfold count_repo, count_topics, count_language, counted_keys.
  destruct (language r) as [l|]; [|done].
  by destruct (decide (l = "")).
Qed.

Lemma fold_count_repo repos o :
  fold_left count_repo repos o = fold_left increment (repos ≫= counted_keys) o.
Proof.
  revert o. induction repos as [|r repos IH]; intros o; [done|].
  cbn [fold_left]. rewrite bind_cons, fold_left_app, IH. by rewrite count_repo_keys.
Qed.

Lemma skillCounts_keys repos :
  skillCounts repos = fold_left increment (repos ≫= counted_keys) [].
Proof. apply fold_count_repo. Qed.

(** Every string that the loop stores starts with the text of a function,
    so it is not a numeric literal. *)
Lemma prefix_app_r p s t :
  String.prefix p s = true → String.prefix p (s +:+ t) = true.
Proof.
  revert s. induction p as [|c p IH]; intros s.
  - intros _. by destruct (s +:+ t).
  - destruct s as [|d s]; [done|].
    change (String d s +:+ t) with (String d (s +:+ t)).
    cbn [String.prefix]. destruct (ascii_dec c d); [apply IH|done].
Qed.

Lemma prefix_app_l p t : String.prefix p (p +:+ t) = true.
Proof.
  induction p as [|c p IH]; [by destruct t|].
  change (String c p +:+ t) with (String c (p +:+ t)).
  cbn [String.prefix]. by destruct (ascii_dec c c).
Qed.

Lemma accessor_key k :
  JS.Object_prototype k = Some JS.PrototypeAccessor → k = "__proto__".
Proof. unfold JS.Object_prototype. by repeat case_decide. Qed.

Lemma increment_strings o k :
  (∀ k' s, JS.own o k' = Some (JS.Str s) → String.prefix "function " s = true) →
  ∀ k' s, JS.own (increment o k) k' = Some (JS.Str s) →
          String.prefix "function " s = true.
Proof.
  intros Ho k' s. unfold increment, JS.set.
  destruct (decide (k = "__proto__")) as [->|Hk]; [apply Ho|].
  rewrite own_put. destruct (decide (k = k')) as [<-|_]; [|apply Ho].
  unfold JS.get. destruct (JS.own o k) as [[n|s0]|] eqn:Hown; cbn.
  - by destruct (decide (n = 0)).
  - destruct (decide (s0 = "")); [done|]. intros [= <-].
    by apply prefix_app_r, (Ho k).
  - destruct (JS.Object_prototype k) as [[f|]|] eqn:Hproto; cbn; [| |done].
    + intros [= <-]. unfold JS.function_source. apply prefix_app_r, prefix_app_l.
    + by apply accessor_key in Hproto.
Qed.

Lemma skillCounts_strings repos k s :
  JS.own (skillCounts repos) k = Some (JS.Str s) →
  String.prefix "function " s = true.
Proof.
  rewrite skillCounts_keys. revert k s.
  induction (repos ≫= counted_keys) as [|k0 ks IH] using rev_ind; [done|].
  rewrite fold_left_app. cbn [fold_left]. by apply increment_strings.
Qed.

(** Incrementing never creates a second property of the same name. *)
Lemma increment_NoDup o k : NoDup o.*1 → NoDup (increment o k).*1.
Proof.
  intros Hnd. unfold increment, JS.set.
  destruct (decide (k = "__proto__")); [done|]. by apply put_NoDup.
Qed.

Lemma fold_increment_NoDup ks o :
  NoDup o.*1 → NoDup (fold_left increment ks o).*1.
Proof.
  revert o. induction ks as [|k ks IH]; intros o Hnd; [done|].
  cbn [fold_left]. by apply IH, increment_NoDup.
Qed.

Lemma skillCounts_NoDup repos : NoDup (skillCounts repos).*1.
Proof. rewrite skillCounts_keys. apply fold_increment_NoDup. constructor. Qed.

(** On names that [Object.prototype] does not know, the loop counts. *)
Lemma fold_increment_counts ks k :
  Forall (λ k, JS.Object_prototype k = None) ks →
  JS.own (fold_left increment ks []) k =
    if decide (count_occ string_dec ks k = 0%nat) then None
    else Some (JS.Num (Z.of_nat (count_occ string_dec ks k))).
Proof.
  induction ks as [|k0 ks IH] using rev_ind; intros Hks; [done|].
  apply Forall_app in Hks as [Hks Hk0]. rewrite Forall_singleton in Hk0.
  specialize (IH Hks).
  rewrite fold_left_app. cbn [fold_left].
  rewrite count_occ_app. cbn [count_occ].
  unfold increment at 1, JS.set.
  destruct (decide (k0 = "__proto__")) as [->|_]; [done|].
  rewrite own_put.
  destruct (string_dec k0 k) as [->|Hne].
  - rewrite decide_True by done. rewrite decide_False by lia.
    unfold JS.get. rewrite IH, Hk0.
    destruct (decide (count_occ string_dec ks k = 0%nat)) as [->|Hpos]; [done|].
    cbn [JS.or_zero_plus_one]. rewrite decide_False by lia.
    do 2 f_equal. lia.
  - rewrite decide_False by done. rewrite IH.
    by replace (count_occ string_dec ks k + 0)%nat
      with (count_occ string_dec ks k) by lia.
Qed.

Lemma counted_keys_occurrences repos n :
  count_occ string_dec (repos ≫= counted_keys) n = occurrences n repos.
Proof.
  unfold occurrences, language_uses, topic_uses.
  induction repos as [|r repos IH]; [by destruct (decide (n = ""))|].
  rewrite !bind_cons, !count_occ_app, IH. clear IH.
  unfold counted_keys at 1. rewrite count_occ_app.
  rewrite filter_cons.
  destruct (language r) as [l|] eqn:Hl;
    [destruct (decide (l = "")) as [->|Hl0]|];
    cbn [count_occ]; repeat destruct (string_dec _ _);
    repeat case_decide; simplify_eq; cbn [length]; lia.
Qed.

(** ** The aggregated list *)

Lemma aggregatedSkills_perm repos :
  aggregatedSkills repos ≡ₚ to_skill <$> skillCounts repos.
Proof.
  unfold aggregatedSkills. rewrite Array_sort_perm.
  apply fmap_Permutation, Object_entries_perm.
Qed.

Lemma aggregatedSkills_names repos :
  name <$> aggregatedSkills repos ≡ₚ (skillCounts repos).*1.
Proof.
  rewrite aggregatedSkills_perm, <- list_fmap_compose.
  reflexivity.
Qed.

(** The aggregated names are pairwise distinct. *)
Lemma aggregatedSkills_NoDup repos : NoDup (name <$> aggregatedSkills repos).
Proof. rewrite aggregatedSkills_names. apply skillCounts_NoDup. Qed.

(** The aggregated entries are the own properties of [skillCounts]. *)
Lemma elem_of_aggregatedSkills repos n c :
  {| name := n; count := c |} ∈ aggregatedSkills repos
  ↔ JS.own (skillCounts repos) n = Some c.
Proof.
  rewrite aggregatedSkills_perm, (own_Some _ _ _ (skillCounts_NoDup repos)).
  rewrite list_elem_of_fmap. split.
  - intros [[k v] [[= -> ->] Hin]]. done.
  - intros Hin. by exists (n, c).
Qed.

Lemma plain_names_keys repos :
  plain_names repos →
  Forall (λ k, JS.Object_prototype k = None) (repos ≫= counted_keys).
Proof.
  intros Hplain. apply Forall_forall. intros k Hk.
  apply list_elem_of_bind in Hk as (r & Hk & Hr). by apply (Hplain r).
Qed.

Lemma by_count_total a b :
  (JS.SortCompare by_count a b <=? 0) = false →
  (JS.SortCompare by_count b a <=? 0) = true.
Proof.
  unfold JS.SortCompare, by_count, JS.minus.
  destruct (count a), (count b); intros H; try done.
  apply Z.leb_gt in H. apply Z.leb_le. lia.
Qed.

Lemma aggregatedSkills_Sorted repos :
  Sorted (λ a b, (JS.SortCompare by_count a b <=? 0) = true)
    (aggregatedSkills repos).
Proof. apply stable_sort_Sorted, by_count_total. Qed.

Lemma Sorted_Forall_impl {A} (R R' : A → A → Prop) (P : A → Prop) l :
  (∀ a b, P a → P b → R a b → R' a b) →
  Forall P l → Sorted R l → Sorted R' l.
Proof.
  intros Himpl HP Hl. induction Hl as [|x l Hl IH Hhd]; [constructor|].
  apply Forall_cons in HP as [Hx HP]. constructor; [by apply IH|].
  destruct Hhd as [|y l Hxy]; constructor.
  apply Forall_cons in HP as [Hy _]. by apply Himpl.
Qed.

Lemma count_desc_trans : Transitive count_desc.
Proof.
  intros a b c (x & y & Ha & Hb & Hxy) (y' & z & Hb' & Hc & Hyz).
  rewrite Hb in Hb'. injection Hb' as <-.
  exists x, z. repeat split; [done|done|lia].
Qed.

(** C1, as amended.  For every repository list in which no language and no
    topic is the name of a member of [Object.prototype], the aggregator
    returns exactly the (name, count) pairs in which the count of a name is
    the number of repositories whose language is that name (a null or empty
    language being no language) plus the number of occurrences of the name
    among all topic lists, each name once and no other entry, sorted by
    count descending; for the Go/cli example it returns Go with count 2
    before cli with count 1. *)
Theorem aggregatedSkills_counts :
  (∀ repos, plain_names repos →
     NoDup (name <$> aggregatedSkills repos)
     ∧ (∀ n c, {| name := n; count := c |} ∈ aggregatedSkills repos
               ↔ (0 < occurrences n repos)%nat
                 ∧ c = JS.Num (Z.of_nat (occurrences n repos)))
     ∧ StronglySorted count_desc (aggregatedSkills repos))
  ∧ aggregatedSkills go_cli
    = [ {| name := "Go"; count := JS.Num 2 |};
        {| name := "cli"; count := JS.Num 1 |} ].
Proof.
  split; [|by vm_compute].
  intros repos Hplain.
  assert (Hcount : ∀ n c,
    {| name := n; count := c |} ∈ aggregatedSkills repos
    ↔ (0 < occurrences n repos)%nat
      ∧ c = JS.Num (Z.of_nat (occurrences n repos))).
  { intros n c. rewrite elem_of_aggregatedSkills, skillCounts_keys.
    rewrite fold_increment_counts by by apply plain_names_keys.
    rewrite counted_keys_occurrences.
    destruct (decide (occurrences n repos = 0%nat)) as [->|Hpos].
    - split; [done|]. intros [? _]. lia.
    - split; [intros [= <-]; split; [lia|done]|by intros [_ ->]]. }
  split; [apply aggregatedSkills_NoDup|]. split; [done|].
  apply (@Sorted_StronglySorted _ _ count_desc_trans).
  apply (Sorted_Forall_impl _ _ (λ s, ∃ x, count s = JS.Num x))
    with (3 := aggregatedSkills_Sorted repos).
  - intros a b [x Ha] [y Hb] Hab. exists x, y. repeat split; [done..|].
    unfold JS.SortCompare, by_count, JS.minus in Hab. rewrite Ha, Hb in Hab.
    apply Z.leb_le in Hab. lia.
  - apply Forall_forall. intros [n c] Hin. apply Hcount in Hin as [_ ->]. by eexists.
Qed.

Lemma aggregatedSkills_counts_witness :
  plain_names go_cli
  ∧ {| name := "Go"; count := JS.Num 2 |} ∈ aggregatedSkills go_cli.
Proof.
  assert (Hplain : plain_names go_cli).
  { intros r k Hr Hk. unfold go_cli in Hr.
    repeat (apply elem_of_cons in Hr as [->|Hr]);
      [| |by apply elem_of_nil in Hr]; cbn in Hk;
      repeat (apply elem_of_cons in Hk as [->|Hk]);
      try (by apply elem_of_nil in Hk); by vm_compute. }
  split; [exact Hplain|].
  apply (proj1 (proj2 (proj1 aggregatedSkills_counts go_cli Hplain))).
  split; [vm_compute; lia|by vm_compute].
Defined.

(** C1, as the specification states it, fails on [odd_names]: the
    specification counts the empty language once and the topic
    [constructor] once; the aggregator has no entry for the empty name and
    gives [constructor] a string, not the number 1. *)
Lemma aggregatedSkills_counts_fails :
  aggregatedSkills odd_names
  = [ {| name := "constructor";
         count := JS.Str "function Object() { [native code] }1" |} ]
  ∧ claimed_count "" odd_names = 1%nat
  ∧ claimed_count "constructor" odd_names = 1%nat
  ∧ ¬ (∀ n c, {| name := n; count := c |} ∈ aggregatedSkills odd_names
              ↔ (0 < claimed_count n odd_names)%nat
                ∧ c = JS.Num (Z.of_nat (claimed_count n odd_names))).
Proof.
  assert (Hout : aggregatedSkills odd_names
    = [ {| name := "constructor";
           count := JS.Str "function Object() { [native code] }1" |} ])
    by by vm_compute.
  split; [done|]. split; [by vm_compute|]. split; [by vm_compute|].
  intros Hclaim.
  assert (Hin : {| name := "constructor"; count := JS.Num 1 |}
                  ∈ aggregatedSkills odd_names).
  { apply Hclaim. split; [vm_compute; lia|by vm_compute]. }
  rewrite Hout in Hin. apply list_elem_of_singleton in Hin. discriminate Hin.
Qed.

(** Each of the two causes alone breaks the count. *)
Example empty_language_not_counted :
  aggregatedSkills [repo_of (Some "") [""]] = [ {| name := ""; count := JS.Num 1 |} ]
  ∧ claimed_count "" [repo_of (Some "") [""]] = 2%nat.
Proof. by vm_compute. Qed.

Example inherited_name_not_counted :
  aggregatedSkills [repo_of None ["toString"; "toString"]]
  = [ {| name := "toString";
         count := JS.Str "function toString() { [native code] }11" |} ]
  ∧ aggregatedSkills [repo_of None ["__proto__"]] = [].
Proof. by vm_compute. Qed.

(** ** The combined skill list *)

Lemma Object_entries_skillIconMap : JS.Object_entries skillIconMap = skillIconMap.
Proof. by vm_compute. Qed.

Lemma skillIconMap_NoDup : NoDup skillIconMap.*1.
Proof. apply (bool_decide_unpack _). by vm_compute. Qed.

Lemma filter_keys {V} (P : string → Prop) `{∀ k, Decision (P k)} (o : JS.Obj V) :
  (filter (λ e, P e.1) o).*1 = filter P o.*1.
Proof.
  induction o as [|[k v] o IH]; [done|].
  rewrite fmap_cons, filter_cons. cbn [fst].
  rewrite (filter_cons (λ e : string * V, P e.1)). cbn [fst].
  destruct (decide (P k)); [rewrite fmap_cons; cbn [fst]; f_equal|]; exact IH.
Qed.

Lemma elem_of_aggregatedSet aggregated n :
  n ∈ aggregatedSet aggregated ↔ n ∈ name <$> aggregated.
Proof. apply elem_of_list_to_set. Qed.

Lemma mostUsedSkills_names aggregated :
  skill_name <$> mostUsedSkills aggregated = name <$> aggregated.
Proof. unfold mostUsedSkills. by rewrite <- list_fmap_compose. Qed.

Lemma remainingSkills_names aggregated :
  skill_name <$> remainingSkills aggregated
  = filter (λ n, n ∉ name <$> aggregated) skillIconMap.*1.
Proof.
  unfold remainingSkills. rewrite Object_entries_skillIconMap.
  rewrite <- list_fmap_compose.
  rewrite <- (filter_keys (λ n, n ∉ name <$> aggregated)).
  apply (f_equal (fmap fst)). apply list_filter_iff.
  intros e. by rewrite elem_of_aggregatedSet.
Qed.

Lemma finalSkills_names repos :
  skill_name <$> finalSkills repos
  = (name <$> aggregatedSkills repos)
      ++ filter (λ n, n ∉ name <$> aggregatedSkills repos) skillIconMap.*1.
Proof.
  unfold finalSkills.
  by rewrite fmap_app, mostUsedSkills_names, remainingSkills_names.
Qed.

Lemma remaining_names_disjoint repos n :
  n ∈ name <$> aggregatedSkills repos →
  n ∉ filter (λ n, n ∉ name <$> aggregatedSkills repos) skillIconMap.*1.
Proof. intros Hn Hrem. by apply list_elem_of_filter in Hrem as [Hnot _]. Qed.

Lemma finalSkills_names_NoDup repos :
  NoDup ((name <$> aggregatedSkills repos)
           ++ filter (λ n, n ∉ name <$> aggregatedSkills repos) skillIconMap.*1).
Proof.
  apply NoDup_app. split; [|split].
  - apply aggregatedSkills_NoDup.
  - apply remaining_names_disjoint.
  - apply NoDup_filter, skillIconMap_NoDup.
Qed.

(** C9.  For every repository list the names of the final combined skill
    list are pairwise distinct: the aggregated names are pairwise distinct,
    being the keys of one object, and the entries appended from the lookup
    table exclude every aggregated name. *)
Theorem finalSkills_NoDup repos :
  NoDup (skill_name <$> finalSkills repos)
  ∧ NoDup (name <$> aggregatedSkills repos)
  ∧ (∀ d, d ∈ remainingSkills (aggregatedSkills repos) →
          skill_name d ∉ name <$> aggregatedSkills repos).
Proof.
  split; [|split].
  - rewrite finalSkills_names. apply finalSkills_names_NoDup.
  - apply aggregatedSkills_NoDup.
  - intros d Hd Hn. apply (remaining_names_disjoint repos _ Hn).
    rewrite <- remainingSkills_names. apply list_elem_of_fmap. by exists d.
Qed.

(** Every name that is counted, other than [__proto__], becomes a key. *)
Lemma increment_keys o k k' :
  k' ∈ (increment o k).*1 ↔ k' ∈ o.*1 ∨ (k' = k ∧ k ≠ "__proto__").
Proof.
  unfold increment, JS.set. destruct (decide (k = "__proto__")) as [->|Hk].
  - split; [by left|]. by intros [?|[_ ?]].
  - rewrite put_keys. destruct (decide (k ∈ o.*1)) as [Hin|Hnin].
    + split; [by left|]. by intros [?|[-> _]].
    + rewrite elem_of_cons. split.
      * intros [->|?]; [by right|by left].
      * intros [?|[-> _]]; [by right|by left].
Qed.

Lemma fold_increment_keys ks o k' :
  k' ∈ (fold_left increment ks o).*1
  ↔ k' ∈ o.*1 ∨ (k' ∈ ks ∧ k' ≠ "__proto__").
Proof.
  revert o. induction ks as [|k ks IH]; intros o; cbn [fold_left].
  - split; [by left|]. intros [?|[?%elem_of_nil _]]; done.
  - rewrite IH, increment_keys, elem_of_cons. split.
    + intros [[?|[-> ?]]|[? ?]]; [by left|right; split; [by left|done]|].
      right; split; [by right|done].
    + intros [?|[[->|?] ?]]; [by left; left|by left; right|by right].
Qed.

Lemma aggregatedSkills_observed repos n :
  n ∈ name <$> aggregatedSkills repos
  ↔ n ∈ observed_names repos ∧ n ≠ "__proto__".
Proof.
  rewrite aggregatedSkills_names, skillCounts_keys, fold_increment_keys.
  unfold observed_names. rewrite elem_of_list_to_set. split.
  - by intros [?%elem_of_nil|?].
  - by right.
Qed.

(** C2, as amended.  For every repository list the final combined skill
    list consists of the aggregated skills, in aggregated order and under
    their names, followed by exactly those entries of the lookup table
    whose names are not aggregated, in table order and with the table's
    icon; every name of the lookup table appears exactly once in it; and,
    when [__proto__] is not among the observed names, its length is at least
    the number of distinct names observed, a null or empty language not
    being a name. *)
Theorem finalSkills_layout repos :
  finalSkills repos
  = mostUsedSkills (aggregatedSkills repos)
    ++ ((λ e, {| skill_name := e.1; icon := Jsx e.2 |})
          <$> filter (λ e, e.1 ∉ name <$> aggregatedSkills repos) skillIconMap)
  ∧ skill_name <$> mostUsedSkills (aggregatedSkills repos)
    = name <$> aggregatedSkills repos
  ∧ (∀ n, n ∈ skillIconMap.*1 →
          count_occ string_dec (skill_name <$> finalSkills repos) n = 1%nat)
  ∧ ("__proto__" ∉ observed_names repos →
     (size (observed_names repos) ≤ length (finalSkills repos))%nat).
Proof.
  split; [|split; [|split]].
  - unfold finalSkills, remainingSkills. rewrite Object_entries_skillIconMap.
    do 2 f_equal. apply list_filter_iff.
    intros e. by rewrite elem_of_aggregatedSet.
  - apply mostUsedSkills_names.
  - intros n Hn.
    rewrite finalSkills_names.
    apply (proj1 (NoDup_count_occ' string_dec _)
             (proj1 (NoDup_ListNoDup _) (finalSkills_names_NoDup repos))).
    apply list_elem_of_In. rewrite elem_of_app.
    destruct (decide (n ∈ name <$> aggregatedSkills repos)); [by left|right].
    by apply list_elem_of_filter.
  - intros Hproto.
    trans (length (name <$> aggregatedSkills repos)).
    + rewrite <- (size_list_to_set (C := gset string))
        by apply aggregatedSkills_NoDup.
      apply subseteq_size. intros n Hn.
      apply elem_of_list_to_set, aggregatedSkills_observed.
      split; [done|]. by intros ->.
    + rewrite <- (length_fmap skill_name (finalSkills repos)).
      rewrite finalSkills_names, length_app. lia.
Qed.

Lemma finalSkills_layout_witness :
  ("__proto__" ∉ observed_names go_cli)
  ∧ (size (observed_names go_cli) ≤ length (finalSkills go_cli))%nat.
Proof.
  assert (Hproto : "__proto__" ∉ observed_names go_cli).
  { unfold observed_names. rewrite elem_of_list_to_set. cbn.
    intros Hin. repeat (apply elem_of_cons in Hin as [Hin|Hin]; [done|]).
    by apply elem_of_nil in Hin. }
  split; [exact Hproto|].
  exact (proj2 (proj2 (proj2 (finalSkills_layout go_cli))) Hproto).
Defined.

(** C2, as the specification states it, fails on [crowded]: eleven distinct
    names are observed (the empty language, the nine names of the lookup
    table and [__proto__]), and the final list has nine entries. *)
Lemma finalSkills_length_fails :
  length (finalSkills crowded) = 9%nat
  ∧ size (claimed_names crowded) = 11%nat
  ∧ ¬ (size (claimed_names crowded) ≤ length (finalSkills crowded))%nat.
Proof.
  assert (Hlen : length (finalSkills crowded) = 9%nat) by by vm_compute.
  assert (Hsize : size (claimed_names crowded) = 11%nat) by by vm_compute.
  split; [done|]. split; [done|]. rewrite Hlen, Hsize. lia.
Qed.

(** Each of the two causes alone makes the final list too short. *)
Example empty_language_not_listed :
  length (finalSkills [repo_of (Some "") skillIconMap.*1]) = 9%nat
  ∧ size (claimed_names [repo_of (Some "") skillIconMap.*1]) = 10%nat.
Proof. by vm_compute. Qed.

Example proto_topic_not_listed :
  length (finalSkills [repo_of None (skillIconMap.*1 ++ ["__proto__"])]) = 9%nat
  ∧ size (claimed_names [repo_of None (skillIconMap.*1 ++ ["__proto__"])]) = 10%nat.
Proof. by vm_compute. Qed.

(** ** The data fetcher *)

Ltac async_unfold :=
  unfold fetch_profile, fetch_repositories, fetch_user, fetch_repos,
    console_error, log, await, setUser, setRepos,
    mbind, Async_bind, bind in *.

Lemma fetchData_steps env net w :
  fetchData env net w =
    match fetch_profile env net w with
    | (Normal _, w1) =>
        match fetch_repositories env net w1 with
        | (Normal a, w2) => (Normal a, w2)
        | (Throw e, w2) => handler e w2
        end
    | (Throw e, w1) => handler e w1
    end.
Proof.
  unfold fetchData, try_catch, handler, mbind, Async_bind, bind.
  destruct (fetch_profile env net w) as [[[]|e] w1]; [|done].
  by destruct (fetch_repositories env net w1) as [[[]|e] w2].
Qed.

Lemma handler_page e w : page (handler e w).2 = page w.
Proof. done. Qed.

(** Step 1 never touches the repository list. *)
Lemma fetch_profile_repos env net w :
  repos (page (fetch_profile env net w).2) = repos (page w).
Proof.
  async_unfold. cbn.
  destruct (users_endpoint net (user_request env)) as [r|e]; [|done].
  destruct (ok r); cbn; [|done]. by destruct (json r).
Qed.

Lemma fetch_profile_throws env net w e :
  users_endpoint net (user_request env) = Throw e →
  fetch_profile env net w
  = (Throw e, {| page := page w; events := events w ++ [Fetch (user_request env)] |}).
Proof. intros H. async_unfold. cbn. by rewrite H. Qed.

Lemma fetch_profile_failed env net w r :
  users_endpoint net (user_request env) = Normal r → ok r = false →
  fetch_profile env net w
  = (Normal tt,
     {| page := page w;
        events := (events w ++ [Fetch (user_request env)])
                    ++ [ConsoleError "GitHub user fetch error:" (OfStatus (status r))] |}).
Proof. intros H Hok. async_unfold. cbn. by rewrite H, Hok. Qed.

(** Step 2 never touches the profile. *)
Lemma fetch_repositories_user env net w :
  user (page (fetch_repositories env net w).2) = user (page w).
Proof.
  async_unfold. cbn.
  destruct (repos_endpoint net (repos_request env)) as [r|e]; [|done].
  destruct (ok r); cbn; [|done]. by destruct (json r) as [[data|v]|e].
Qed.

Lemma fetch_repositories_failed env net w r :
  repos_endpoint net (repos_request env) = Normal r → ok r = false →
  fetch_repositories env net w
  = (Normal tt,
     {| page := page w;
        events := (events w ++ [Fetch (repos_request env)])
                    ++ [ConsoleError "GitHub repos fetch error:" (OfStatus (status r))] |}).
Proof. intros H Hok. async_unfold. cbn. by rewrite H, Hok. Qed.

Lemma fetch_repositories_array env net w r data :
  repos_endpoint net (repos_request env) = Normal r → ok r = true →
  json r = Normal (ArrayOf data) →
  fetch_repositories env net w
  = (Normal tt,
     {| page := {| user := user (page w);
                   repos := JS.slice0 6 (JS.Array_sort by_stars data) |};
        events := events w ++ [Fetch (repos_request env)] |}).
Proof. intros H Hok Hjson. async_unfold. cbn. by rewrite H, Hok, Hjson. Qed.

Lemma fetch_repositories_not_array env net w r v :
  repos_endpoint net (repos_request env) = Normal r → ok r = true →
  json r = Normal (NotArray v) →
  fetch_repositories env net w
  = (Normal tt,
     {| page := {| user := user (page w); repos := [] |};
        events := (events w ++ [Fetch (repos_request env)])
                    ++ [ConsoleError "Unexpected response from GitHub API:" (OfData v)] |}).
Proof. intros H Hok Hjson. async_unfold. cbn. by rewrite H, Hok, Hjson. Qed.

(** Without an array in the answer, step 2 leaves the list or empties it. *)
Lemma fetch_repositories_no_array env net w :
  (∀ r data, repos_endpoint net (repos_request env) = Normal r →
             json r ≠ Normal (ArrayOf data)) →
  repos (page (fetch_repositories env net w).2) = repos (page w)
  ∨ repos (page (fetch_repositories env net w).2) = [].
Proof.
  intros Hno. async_unfold. cbn.
  destruct (repos_endpoint net (repos_request env)) as [r|e]; [|by left].
  destruct (ok r); cbn; [|by left].
  specialize (Hno r). destruct (json r) as [[data|v]|e]; cbn;
    [by destruct (Hno data)|by right|by left].
Qed.

Lemma string_app_empty s : s +:+ "" = s.
Proof.
  induction s as [|c s IH]; [done|].
  change (String c (s +:+ "") = String c s). by rewrite IH.
Qed.

(** The two requests go to different addresses. *)
Lemma requests_differ env : user_request env ≠ repos_request env.
Proof.
  unfold user_request, repos_request. intros [= Hurl].
  apply (inj (String.app _)) in Hurl.
  rewrite <- (string_app_empty (VITE_GITHUB_USERNAME env)) in Hurl at 1.
  by apply (inj (String.app _)) in Hurl.
Qed.

Lemma fetchData_page env net w :
  page (fetchData env net w).2 =
    match fetch_profile env net w with
    | (Normal _, w1) => page (fetch_repositories env net w1).2
    | (Throw _, w1) => page w1
    end.
Proof.
  rewrite fetchData_steps.
  destruct (fetch_profile env net w) as [[[]|e] w1]; [|done].
  by destruct (fetch_repositories env net w1) as [[[]|e] w2].
Qed.

Lemma fetch_profile_completes env net w :
  profile_completes env net → ∃ w1, fetch_profile env net w = (Normal tt, w1).
Proof.
  intros (r & Hr & Hjson). async_unfold. cbn. rewrite Hr.
  destruct (ok r) eqn:Hok; cbn; [|by eexists].
  destruct (Hjson eq_refl) as [u ->]. by eexists.
Qed.

(** Whatever step 1 did, the repository list is the one step 2 leaves. *)
Lemma fetchData_repos env net w :
  profile_completes env net →
  ∃ w1, repos (page w1) = repos (page w)
        ∧ repos (page (fetchData env net w).2)
          = repos (page (fetch_repositories env net w1).2).
Proof.
  intros Hp. destruct (fetch_profile_completes env net w Hp) as (w1 & Hw1).
  exists w1. split.
  - by rewrite <- (fetch_profile_repos env net w), Hw1.
  - by rewrite fetchData_page, Hw1.
Qed.

(** C3.  If the body of the repository-list response is not an array (an
    error object, say), the repository state is the empty list: on mount
    in every case, and from any earlier state once the response is a
    success and is therefore inspected. *)
Theorem not_array_gives_empty env net r v :
  repos_endpoint net (repos_request env) = Normal r →
  json r = Normal (NotArray v) →
  repos (page (mounted env net)) = []
  ∧ (∀ w, profile_completes env net → ok r = true →
          repos (page (fetchData env net w).2) = []).
Proof.
  intros Hr Hjson. split.
  - unfold mounted. rewrite fetchData_page.
    pose proof (fetch_profile_repos env net initial) as Hkeep.
    destruct (fetch_profile env net initial) as [[[]|e] w1]; [|done].
    destruct (fetch_repositories_no_array env net w1) as [Hsame|Hempty]; [|by rewrite Hsame|done].
    intros r' data Hr'. rewrite Hr in Hr'. injection Hr' as <-. by rewrite Hjson.
  - intros w Hp Hok. destruct (fetchData_repos env net w Hp) as (w1 & _ & ->).
    by rewrite (fetch_repositories_not_array env net w1 r v).
Qed.

Lemma not_array_gives_empty_witness :
  repos (page (mounted sample_env error_object)) = [].
Proof.
  exact (proj1 (not_array_gives_empty sample_env error_object
    {| status := 200; json := Normal (NotArray (JObject [("message", "Not Found")])) |}
    (JObject [("message", "Not Found")]) eq_refl eq_refl)).
Defined.

(** ** Sorting by stars *)

Lemma by_stars_total a b :
  (JS.SortCompare by_stars a b <=? 0) = false →
  (JS.SortCompare by_stars b a <=? 0) = true.
Proof.
  unfold JS.SortCompare, by_stars. intros H.
  apply Z.leb_gt in H. apply Z.leb_le. lia.
Qed.

Lemma stars_desc_trans : Transitive stars_desc.
Proof. unfold stars_desc. intros a b c ??. lia. Qed.

Lemma sort_by_stars_sorted data :
  StronglySorted stars_desc (JS.Array_sort by_stars data).
Proof.
  apply (@Sorted_StronglySorted _ _ stars_desc_trans).
  apply (Sorted_Forall_impl _ _ (λ _, True))
    with (3 := stable_sort_Sorted _ by_stars_total data).
  - intros a b _ _ Hab. unfold JS.SortCompare, by_stars in Hab.
    apply Z.leb_le in Hab. unfold stars_desc. lia.
  - by apply Forall_forall.
Qed.

(** What is kept and what is dropped by [sort] followed by [slice(0, n)]. *)
Lemma slice_sorted_split n data :
  let kept := JS.slice0 n (JS.Array_sort by_stars data) in
  let dropped := drop n (JS.Array_sort by_stars data) in
  data ≡ₚ kept ++ dropped
  ∧ StronglySorted stars_desc kept
  ∧ (∀ k d, k ∈ kept → d ∈ dropped → stargazers_count d ≤ stargazers_count k).
Proof.
  intros kept dropped.
  pose proof (sort_by_stars_sorted data) as Hsorted.
  rewrite <- (take_drop n (JS.Array_sort by_stars data)) in Hsorted.
  apply StronglySorted_app in Hsorted as (Hcross & Hkept & _).
  split; [|split; [done|]].
  - subst kept dropped. unfold JS.slice0. by rewrite take_drop, Array_sort_perm.
  - intros k d Hk Hd. by apply Hcross.
Qed.

(** C4.  When the repository-list response is an array of more than 6
    repositories, the retained list has exactly 6 entries, ordered by
    descending star count, and no dropped entry has more stars than a
    retained one; an array of 6 or fewer is retained whole, in descending
    star order. *)
Theorem retained_top_six env net w r data :
  profile_completes env net →
  repos_endpoint net (repos_request env) = Normal r → ok r = true →
  json r = Normal (ArrayOf data) →
  let kept := repos (page (fetchData env net w).2) in
  ((6 < length data)%nat → length kept = 6%nat)
  ∧ ((length data ≤ 6)%nat → kept ≡ₚ data)
  ∧ StronglySorted stars_desc kept
  ∧ ∃ dropped, data ≡ₚ kept ++ dropped
      ∧ ∀ k d, k ∈ kept → d ∈ dropped → stargazers_count d ≤ stargazers_count k.
Proof.
  intros Hp Hr Hok Hjson kept.
  assert (Hkept : kept = JS.slice0 6 (JS.Array_sort by_stars data)).
  { subst kept. destruct (fetchData_repos env net w Hp) as (w1 & _ & ->).
    by rewrite (fetch_repositories_array env net w1 r data). }
  rewrite Hkept. clear kept Hkept.
  destruct (slice_sorted_split 6 data) as (Hperm & Hsorted & Hcross).
  assert (Hlen : length (JS.Array_sort by_stars data) = length data)
    by by rewrite Array_sort_perm.
  split; [|split; [|split; [done|]]].
  - intros Hmore. unfold JS.slice0. rewrite length_take. lia.
  - intros Hfew. unfold JS.slice0. rewrite take_ge by lia. apply Array_sort_perm.
  - by exists (drop 6 (JS.Array_sort by_stars data)).
Qed.

Lemma all_well_completes : profile_completes sample_env all_well.
Proof. eexists. split; [reflexivity|]. intros _. by eexists. Defined.

Lemma retained_top_six_witness :
  (6 < length seven)%nat
  ∧ length (repos (page (mounted sample_env all_well))) = 6%nat.
Proof.
  assert (Hmore : (6 < length seven)%nat) by (cbn; lia).
  split; [exact Hmore|].
  exact (proj1 (retained_top_six sample_env all_well initial
    {| status := 200; json := Normal (ArrayOf seven) |} seven
    all_well_completes eq_refl eq_refl eq_refl) Hmore).
Defined.

Example retained_seven :
  stargazers_count <$> repos (page (mounted sample_env all_well)) = [9; 7; 5; 4; 3; 2].
Proof. by vm_compute. Qed.

(** C6.  For each of the two fetches, a response whose status indicates
    failure leaves the corresponding piece of state at its previous value;
    after mount the profile is then still unset and the repository list
    still empty. *)
Theorem failed_response_keeps_state env net w :
  (∀ r, users_endpoint net (user_request env) = Normal r → ok r = false →
        user (page (fetchData env net w).2) = user (page w)
        ∧ user (page (mounted env net)) = None)
  ∧ (∀ r, repos_endpoint net (repos_request env) = Normal r → ok r = false →
          repos (page (fetchData env net w).2) = repos (page w)
          ∧ repos (page (mounted env net)) = []).
Proof.
  split; intros r Hr Hok.
  - assert (Hgen : ∀ w0, user (page (fetchData env net w0).2) = user (page w0)).
    { intros w0. rewrite fetchData_page.
      rewrite (fetch_profile_failed env net w0 r Hr Hok).
      by rewrite fetch_repositories_user. }
    split; [apply Hgen|]. unfold mounted. by rewrite Hgen.
  - assert (Hgen : ∀ w0, repos (page (fetchData env net w0).2) = repos (page w0)).
    { intros w0. rewrite fetchData_page.
      pose proof (fetch_profile_repos env net w0) as Hkeep.
      destruct (fetch_profile env net w0) as [[[]|e] w1]; [|done].
      by rewrite (fetch_repositories_failed env net w1 r Hr Hok). }
    split; [apply Hgen|]. unfold mounted. by rewrite Hgen.
Qed.

Lemma failed_response_keeps_state_witness :
  user (page (mounted sample_env profile_refused)) = None
  ∧ repos (page (mounted sample_env repos_refused)) = [].
Proof.
  split.
  - exact (proj2 (proj1 (failed_response_keeps_state sample_env profile_refused initial)
      not_found eq_refl eq_refl)).
  - exact (proj2 (proj2 (failed_response_keeps_state sample_env repos_refused initial)
      {| status := 403; json := Normal (NotArray JNull) |} eq_refl eq_refl)).
Defined.

(** C7.  If the profile fetch is answered with a failure status and the
    repository fetch succeeds, the repository request is still issued and
    its result stored, so that the project grid is populated from it,
    while the hero and about sections show their static placeholder text
    and nothing of a profile. *)
Theorem profile_failure_still_lists env net r1 r2 data :
  users_endpoint net (user_request env) = Normal r1 → ok r1 = false →
  repos_endpoint net (repos_request env) = Normal r2 → ok r2 = true →
  json r2 = Normal (ArrayOf data) →
  let w := mounted env net in
  Fetch (repos_request env) ∈ events w
  ∧ repos (page w) = JS.slice0 6 (JS.Array_sort by_stars data)
  ∧ length (project_grid (page w)) = min 6 (length data)
  ∧ user (page w) = None
  ∧ hero_heading (user (page w)) = "Sohel Ansari"
  ∧ about_text (user (page w)) = about_placeholder
  ∧ hero_avatar (user (page w)) = None
  ∧ hero_bio (user (page w)) = None
  ∧ blog_link (user (page w)) = None.
Proof.
  intros Hr1 Hok1 Hr2 Hok2 Hjson w.
  assert (Hw : w = {|
    page := {| user := None;
               repos := JS.slice0 6 (JS.Array_sort by_stars data) |};
    events := [ Fetch (user_request env);
                ConsoleError "GitHub user fetch error:" (OfStatus (status r1));
                Fetch (repos_request env) ] |}).
  { subst w. unfold mounted. rewrite fetchData_steps.
    rewrite (fetch_profile_failed env net initial r1 Hr1 Hok1).
    by rewrite (fetch_repositories_array env net _ r2 data Hr2 Hok2 Hjson). }
  rewrite Hw. cbn [page events user repos].
  split; [|split; [done|split; [|done]]].
  - apply elem_of_cons. right. apply elem_of_cons. right. apply elem_of_cons. by left.
  - unfold project_grid. cbn [repos]. rewrite length_fmap.
    unfold JS.slice0. by rewrite length_take, Array_sort_perm.
Qed.

Lemma profile_failure_still_lists_witness :
  stars <$> project_grid (page (mounted sample_env profile_refused)) = [9; 7; 5; 4; 3; 2]
  ∧ hero_heading (user (page (mounted sample_env profile_refused))) = "Sohel Ansari".
Proof.
  pose proof (profile_failure_still_lists sample_env profile_refused not_found
    {| status := 200; json := Normal (ArrayOf seven) |} seven
    eq_refl eq_refl eq_refl eq_refl eq_refl) as (_ & Hrepos & _ & _ & Hhero & _).
  split; [|exact Hhero].
  unfold project_grid. rewrite Hrepos. reflexivity.
Defined.

(** C8.  If the profile request itself throws, the repository request is
    never issued: the only request made is the profile's, the exception
    is reported, and the page state is untouched, so that after mount the
    repository list is empty whatever the repository endpoint would have
    answered. *)
Theorem profile_exception_skips_repositories env net e w :
  users_endpoint net (user_request env) = Throw e →
  events (fetchData env net w).2
  = events w ++ [ Fetch (user_request env);
                  ConsoleError "Unexpected error fetching GitHub data:" (OfError e) ]
  ∧ page (fetchData env net w).2 = page w
  ∧ (Fetch (repos_request env) ∉ events (mounted env net))
  ∧ repos (page (mounted env net)) = [].
Proof.
  intros He.
  assert (Hgen : ∀ w0, fetchData env net w0
    = (Normal tt,
       {| page := page w0;
          events := events w0 ++ [ Fetch (user_request env);
            ConsoleError "Unexpected error fetching GitHub data:" (OfError e) ] |})).
  { intros w0. rewrite fetchData_steps, (fetch_profile_throws env net w0 e He).
    unfold handler, console_error, log. cbn. by rewrite <- (assoc_L (++)). }
  unfold mounted. rewrite !Hgen. cbn.
  split; [done|]. split; [done|]. split; [|done].
  intros Hin. apply elem_of_cons in Hin as [Heq|Hin].
  - destruct (requests_differ env). congruence.
  - apply elem_of_cons in Hin as [?|Hin]; [done|]. by apply elem_of_nil in Hin.
Qed.

Lemma profile_exception_skips_repositories_witness :
  (Fetch (repos_request sample_env) ∉ events (mounted sample_env profile_unreachable))
  ∧ repos (page (mounted sample_env profile_unreachable)) = [].
Proof.
  exact (proj2 (proj2 (profile_exception_skips_repositories sample_env
    profile_unreachable "Failed to fetch" initial eq_refl))).
Defined.

(** ** The blog link *)

(** C10.  The blog link of the about section is rendered only when the
    profile is set and its blog field is non-empty; its target is the
    blog value unchanged when that value starts with [http], and the blog
    value with [https://] prepended otherwise. *)
Theorem blog_link_target (u : option GitHubUser) (target : string) :
  blog_link u = Some target
  ↔ ∃ p, u = Some p ∧ blog p ≠ ""
         ∧ target = (if JS.startsWith "http" (blog p) then blog p
                     else "https://" +:+ blog p).
Proof.
  unfold blog_link. split.
  - destruct u as [p|]; [|done].
    destruct (decide (blog p = "")) as [|Hblog]; [done|].
    intros [= <-]. exists p. by repeat split.
  - intros (p & -> & Hblog & ->). by rewrite decide_False.
Qed.

Example blog_link_bare :
  blog_link (Some sample_user) = Some "https://sohel22z.github.io".
Proof. reflexivity. Qed.

Lemma blog_link_target_witness :
  blog_link (Some sample_user) = Some "https://sohel22z.github.io".
Proof.
  apply (proj2 (blog_link_target (Some sample_user) "https://sohel22z.github.io")).
  exists sample_user. by repeat split.
Defined.

(** ** The aggregator over a store *)












Lemma finalSkills_NoDup_witness :
  skill_name {| skill_name := "Git"; icon := Jsx {| component := "FaGitAlt";
                 className := "text-gray-700"; icon_size := 20 |} |}
    ∉ name <$> aggregatedSkills go_cli.
Proof.
  apply (proj2 (proj2 (finalSkills_NoDup go_cli))).
  apply (list_elem_of_lookup_2 _ 7). reflexivity.
Defined.

(** * Further properties of the data fetcher *)

(** Case analysis on what the network answers, along the run of
    [fetchData]. *)
Ltac fetch_cases env net :=
  unfold fetchData, try_catch, handler; async_unfold; cbn;
  let r1 := fresh "r" in
  destruct (users_endpoint net (user_request env)) as [r1|?] eqn:?; cbn;
  [ destruct (ok r1) eqn:?; cbn;
    [ destruct (json r1) as [?|?] eqn:?; cbn | ] | ];
  try (let r2 := fresh "r" in
       destruct (repos_endpoint net (repos_request env)) as [r2|?] eqn:?; cbn;
       [ destruct (ok r2) eqn:?; cbn;
         [ destruct (json r2) as [[?|?]|?] eqn:?; cbn | ] | ]).

(** The run of [fetchData] along the answers named by the hypotheses. *)
Ltac fetch_along :=
  unfold fetchData, try_catch, handler; async_unfold; cbn;
  repeat (match goal with H : _ = _ |- _ => rewrite H end; cbn).

(** [fetchData] never rejects: whatever the network does, and whatever a
    body fails to parse as, the [catch] block absorbs it. *)
Theorem fetchData_never_throws env net w :
  (fetchData env net w).1 = Normal tt.
Proof. fetch_cases env net; reflexivity. Qed.

Lemma profile_completes_cases env net :
  profile_completes env net ↔
    match users_endpoint net (user_request env) with
    | Normal r => if ok r then match json r with Normal _ => True | Throw _ => False end
                  else True
    | Throw _ => False
    end.
Proof.
  unfold profile_completes. split.
  - intros (r & -> & Hjson). destruct (ok r); [|done].
    by destruct (Hjson eq_refl) as [u ->].
  - destruct (users_endpoint net (user_request env)) as [r|e]; [|done].
    intros H. exists r. split; [done|]. intros Hok. rewrite Hok in H.
    destruct (json r) as [u|e]; [by exists u|done].
Qed.

Lemma fetchData_trace env net w :
  ∃ new, events (fetchData env net w).2 = events w ++ new
    ∧ (requests new = [user_request env]
       ∨ requests new = [user_request env; repos_request env])
    ∧ (requests new = [user_request env; repos_request env]
       ↔ profile_completes env net).
Proof.
  generalize (profile_completes_cases env net).
  fetch_cases env net; intros Hpc; rewrite <- ?(assoc_L (++));
    (eexists; split; [reflexivity|]); cbn;
    (split; [by (left + right)|]); rewrite Hpc; by split.
Qed.

(** At most two requests are made, the profile's first; the repository
    request follows exactly when step 1 completes (a failure status
    included), and never precedes the profile's. *)
Theorem fetchData_requests env net w :
  ∃ new, events (fetchData env net w).2 = events w ++ new
    ∧ (requests new = [user_request env]
       ∨ requests new = [user_request env; repos_request env])
    ∧ (requests new = [user_request env; repos_request env]
       ↔ profile_completes env net).
Proof. apply fetchData_trace. Qed.

Lemma request_headers_own key :
  JS.own (request_headers key) "Accept"
  = Some "application/vnd.github.mercy-preview+json"
  ∧ JS.own (request_headers key) "Authorization"
    = ((λ k, "token " +:+ k) <$> (key ≫= truthy_string))
  ∧ (∀ h, h ∈ (request_headers key).*1 → h = "Accept" ∨ h = "Authorization").
Proof.
  unfold request_headers, truthy_string. destruct key as [k|]; cbn.
  - destruct (decide (k = "")); cbn.
    + split; [done|split; [done|]]. intros h ->%list_elem_of_singleton. by left.
    + split; [done|split; [done|]]. intros h Hh.
      apply elem_of_cons in Hh as [-> | ->%list_elem_of_singleton]; [by left|by right].
  - split; [done|split; [done|]]. intros h ->%list_elem_of_singleton. by left.
Qed.

(** Every request that [fetchData] makes carries the preview media type
    under [Accept], carries [Authorization: token k] exactly when a
    non-empty token [k] is configured, and carries no other header. *)
Theorem issued_requests_headers env net w new r :
  events (fetchData env net w).2 = events w ++ new →
  r ∈ requests new →
  JS.own (headers r) "Accept" = Some "application/vnd.github.mercy-preview+json"
  ∧ JS.own (headers r) "Authorization"
    = ((λ k, "token " +:+ k) <$> (VITE_GITHUB_TOKEN env ≫= truthy_string))
  ∧ (∀ h, h ∈ (headers r).*1 → h = "Accept" ∨ h = "Authorization").
Proof.
  intros Hnew Hr.
  destruct (fetchData_trace env net w) as (new' & Hnew' & Hreq & _).
  rewrite Hnew in Hnew'. apply (inj (app _)) in Hnew' as <-.
  assert (r = user_request env ∨ r = repos_request env) as [->| ->].
  { destruct Hreq as [Hreq|Hreq]; rewrite Hreq in Hr.
    - apply list_elem_of_singleton in Hr. by left.
    - apply elem_of_cons in Hr as [-> | ->%list_elem_of_singleton]; [by left|by right]. }
  - apply request_headers_own.
  - apply request_headers_own.
Qed.

Lemma issued_requests_headers_witness :
  JS.own (headers (repos_request with_token)) "Authorization" = Some "token ghp_abc".
Proof.
  apply (proj1 (proj2 (issued_requests_headers with_token all_well initial
    [Fetch (user_request with_token); Fetch (repos_request with_token)]
    (repos_request with_token) eq_refl
    (list_elem_of_further _ _ _ (list_elem_of_here _ _))))).
Defined.

Lemma fully_succeeds_cases env net :
  fully_succeeds env net ↔
    match users_endpoint net (user_request env) with
    | Normal r1 =>
        if ok r1 then
          match json r1 with
          | Normal _ =>
              match repos_endpoint net (repos_request env) with
              | Normal r2 =>
                  if ok r2 then
                    match json r2 with
                    | Normal (ArrayOf _) => True
                    | _ => False
                    end
                  else False
              | Throw _ => False
              end
          | Throw _ => False
          end
        else False
    | Throw _ => False
    end.
Proof.
  unfold fully_succeeds. split.
  - by intros (r1 & u & r2 & data & -> & -> & -> & -> & -> & ->).
  - destruct (users_endpoint net (user_request env)) as [r1|]; [|done].
    destruct (ok r1) eqn:Hok1; [|done].
    destruct (json r1) as [u|] eqn:Hj1; [|done].
    destruct (repos_endpoint net (repos_request env)) as [r2|]; [|done].
    destruct (ok r2) eqn:Hok2; [|done].
    destruct (json r2) as [[data|]|] eqn:Hj2; [|done..].
    intros _. by exists r1, u, r2, data.
Qed.

(** Every failure is reported: a run logs no error exactly when both
    requests succeed, both bodies parse and the second is an array. *)
Theorem reports_iff_failure env net w :
  ∃ new, events (fetchData env net w).2 = events w ++ new
    ∧ (reports new = [] ↔ fully_succeeds env net).
Proof.
  generalize (fully_succeeds_cases env net).
  fetch_cases env net; intros Hfs; rewrite <- ?(assoc_L (++));
    (eexists; split; [reflexivity|]); cbn; rewrite Hfs; by split.
Qed.

(** On full success the profile is stored whole and the repository list is
    the answer sorted by stars and cut to six; nothing is logged. *)
Theorem fetchData_success env net w r1 u r2 data :
  users_endpoint net (user_request env) = Normal r1 → ok r1 = true →
  json r1 = Normal u →
  repos_endpoint net (repos_request env) = Normal r2 → ok r2 = true →
  json r2 = Normal (ArrayOf data) →
  fetchData env net w
  = (Normal tt,
     {| page := {| user := Some u;
                   repos := JS.slice0 6 (JS.Array_sort by_stars data) |};
        events := events w ++ [Fetch (user_request env); Fetch (repos_request env)] |}).
Proof.
  intros. fetch_along. by rewrite <- ?(assoc_L (++)).
Qed.

Lemma fetchData_success_witness :
  user (page (mounted sample_env all_well)) = Some sample_user.
Proof.
  unfold mounted.
  by rewrite (fetchData_success sample_env all_well initial _ sample_user _ seven
    eq_refl eq_refl eq_refl eq_refl eq_refl eq_refl).
Defined.

(** A profile answer that is a success but does not parse ends the run
    like a network error: the repository request is not made, the page
    state is untouched, and the exception is reported. *)
Theorem profile_parse_failure env net w r1 e :
  users_endpoint net (user_request env) = Normal r1 → ok r1 = true →
  json r1 = Throw e →
  fetchData env net w
  = (Normal tt,
     {| page := page w;
        events := events w ++ [ Fetch (user_request env);
          ConsoleError "Unexpected error fetching GitHub data:" (OfError e) ] |}).
Proof.
  intros. fetch_along. by rewrite <- ?(assoc_L (++)).
Qed.

Lemma profile_parse_failure_witness :
  page (mounted sample_env profile_garbled) = {| user := None; repos := [] |}.
Proof.
  unfold mounted.
  by rewrite (profile_parse_failure sample_env profile_garbled initial _
    "Unexpected token <" eq_refl eq_refl eq_refl).
Defined.

(** An exception in step 2 (the request throws, or its body does not
    parse) comes after the profile was stored: the profile stays, the
    repository list keeps its earlier value, and the exception is
    reported. *)
Theorem repository_exception_keeps_profile env net w r1 u e :
  users_endpoint net (user_request env) = Normal r1 → ok r1 = true →
  json r1 = Normal u →
  (repos_endpoint net (repos_request env) = Throw e
   ∨ ∃ r2, repos_endpoint net (repos_request env) = Normal r2
           ∧ ok r2 = true ∧ json r2 = Throw e) →
  fetchData env net w
  = (Normal tt,
     {| page := {| user := Some u; repos := repos (page w) |};
        events := events w ++ [ Fetch (user_request env); Fetch (repos_request env);
          ConsoleError "Unexpected error fetching GitHub data:" (OfError e) ] |}).
Proof.
  intros ? ? ? [?|(? & ? & ? & ?)]; fetch_along; by rewrite <- ?(assoc_L (++)).
Qed.

Lemma repository_exception_keeps_profile_witness :
  page (mounted sample_env repos_unreachable)
  = {| user := Some sample_user; repos := [] |}.
Proof.
  unfold mounted.
  by rewrite (repository_exception_keeps_profile sample_env repos_unreachable initial
    _ sample_user "Failed to fetch" eq_refl eq_refl eq_refl (or_introl eq_refl)).
Defined.

(** ** The repository list as an invariant *)

Lemma stars_desc_cards l :
  StronglySorted stars_desc l →
  StronglySorted (λ a b, card_stars b ≤ card_stars a) (render_card <$> l).
Proof.
  induction 1 as [|r l Hl IH Hr]; [constructor|].
  rewrite fmap_cons. constructor; [done|].
  apply Forall_fmap. by apply (Forall_impl _ _ _ Hr).
Qed.

(** [fetchData] keeps the repository list short and sorted: from a state
    whose list has at most six entries in descending star order it leads
    to such a state again, and the project grid then shows one card per
    entry, at most six, in descending star order. *)
Theorem repository_list_invariant env net w :
  (length (repos (page w)) ≤ 6)%nat →
  StronglySorted stars_desc (repos (page w)) →
  let s := page (fetchData env net w).2 in
  (length (repos s) ≤ 6)%nat
  ∧ StronglySorted stars_desc (repos s)
  ∧ (length (project_cards s) ≤ 6)%nat
  ∧ StronglySorted (λ a b, card_stars b ≤ card_stars a) (project_cards s).
Proof.
  intros Hlen Hsorted s.
  assert (Hinv : (length (repos s) ≤ 6)%nat ∧ StronglySorted stars_desc (repos s)).
  { subst s. fetch_cases env net; split;
      first [ done
            | cbn; lia
            | unfold JS.slice0; rewrite length_take; lia
            | apply SSorted_nil
            | apply (proj1 (proj2 (slice_sorted_split 6 _))) ]. }
  destruct Hinv as [Hlen' Hsorted'].
  split; [done|split; [done|]]. unfold project_cards. split.
  - by rewrite length_fmap.
  - by apply stars_desc_cards.
Qed.

Lemma repository_list_invariant_witness :
  (length (project_cards (page (mounted sample_env all_well))) ≤ 6)%nat.
Proof.
  apply (repository_list_invariant sample_env all_well initial).
  - cbn. lia.
  - constructor.
Defined.

(** Running the fetch routine a second time against the same answers
    leaves the page state that the first run produced. *)
Theorem fetchData_idempotent env net w :
  page (fetchData env net (fetchData env net w).2).2
  = page (fetchData env net w).2.
Proof. fetch_cases env net; reflexivity. Qed.

(** * Further properties of the two sorts *)

Section StableSortOrder.
Context {A : Type} (keep : A → A → bool).

(** Among elements any two of which may stay in place, the sort changes
    nothing. *)
Lemma insert_before_filter (P : A → Prop) `{∀ x, Decision (P x)} x l :
  (∀ a b, P a → P b → keep a b = true) →
  filter P (JS.insert_before keep x l) = filter P (x :: l).
Proof.
  intros Hclass. induction l as [|y l IH]; [done|].
  cbn [JS.insert_before]. destruct (keep x y) eqn:Hxy; [done|].
  rewrite (filter_cons _ y), IH, !(filter_cons _ x), (filter_cons _ y).
  destruct (decide (P x)) as [Hx|]; [|done].
  destruct (decide (P y)) as [Hy|]; [|done].
  by rewrite (Hclass x y Hx Hy) in Hxy.
Qed.

Lemma stable_sort_filter (P : A → Prop) `{∀ x, Decision (P x)} l :
  (∀ a b, P a → P b → keep a b = true) →
  filter P (JS.stable_sort keep l) = filter P l.
Proof.
  intros Hclass. induction l as [|x l IH]; [done|].
  cbn [JS.stable_sort]. rewrite insert_before_filter by done.
  by rewrite !(filter_cons _ x), IH.
Qed.

(** A list that is sorted already is returned as it is. *)
Lemma stable_sort_sorted l :
  Sorted (λ u v, keep u v = true) l → JS.stable_sort keep l = l.
Proof.
  induction 1 as [|x l Hl IH Hhd]; [done|].
  cbn [JS.stable_sort]. rewrite IH.
  destruct Hhd as [|y l' Hxy]; [done|]. cbn [JS.insert_before]. by rewrite Hxy.
Qed.
End StableSortOrder.

Lemma stars_desc_keep l :
  StronglySorted stars_desc l →
  Sorted (λ u v, (JS.SortCompare by_stars u v <=? 0) = true) l.
Proof.
  intros Hl. apply StronglySorted_Sorted in Hl.
  apply (Sorted_Forall_impl _ _ (λ _, True)) with (3 := Hl).
  - intros a b _ _ Hab. unfold JS.SortCompare, by_stars, stars_desc in *.
    apply Z.leb_le. lia.
  - by apply Forall_forall.
Qed.

(** The star sort is stable and leaves a sorted answer alone: for every
    star count, the repositories with that count come out in the order in
    which the response listed them; and a response that is already in
    descending star order is kept as it is. *)
Theorem star_sort_stable data :
  (∀ n, filter (λ r, stargazers_count r = n) (JS.Array_sort by_stars data)
        = filter (λ r, stargazers_count r = n) data)
  ∧ (StronglySorted stars_desc data → JS.Array_sort by_stars data = data).
Proof.
  split.
  - intros n. apply stable_sort_filter. intros a b Ha Hb.
    unfold JS.SortCompare, by_stars. apply Z.leb_le. lia.
  - intros Hsorted. by apply stable_sort_sorted, stars_desc_keep.
Qed.

Lemma star_sort_stable_witness :
  JS.Array_sort by_stars (JS.Array_sort by_stars tied) = JS.Array_sort by_stars tied.
Proof.
  apply (proj2 (star_sort_stable (JS.Array_sort by_stars tied))).
  apply sort_by_stars_sorted.
Defined.

Example tied_order :
  repo_name <$> JS.Array_sort by_stars tied = ["top"; "first"; "second"].
Proof. reflexivity. Qed.

(** * Further properties of the skill aggregator *)

Lemma elem_of_counted_keys r k :
  k ∈ counted_keys r ↔ (language r = Some k ∧ k ≠ "") ∨ k ∈ topics r.
Proof.
  unfold counted_keys. rewrite elem_of_app.
  destruct (language r) as [l|]; [destruct (decide (l = "")) as [->|Hl]|].
  - split; [intros [?%elem_of_nil|?]; [done|by right]|].
    intros [[[= <-] ?]|?]; [done|by right].
  - rewrite list_elem_of_singleton. split.
    + intros [->|?]; [by left|by right].
    + intros [[[= <-] _]|?]; [by left|by right].
  - split; [intros [?%elem_of_nil|?]; [done|by right]|].
    intros [[? _]|?]; [done|by right].
Qed.

(** Apart from [__proto__], the names of the aggregated list are exactly
    the non-empty languages and the topics of the repositories; so, when
    [__proto__] is not among them, the list is empty exactly when no
    repository has a non-empty language or a topic. *)
Theorem aggregated_names repos :
  (∀ n, n ≠ "__proto__" →
        n ∈ name <$> aggregatedSkills repos
        ↔ ∃ r, r ∈ repos ∧ ((language r = Some n ∧ n ≠ "") ∨ n ∈ topics r))
  ∧ ("__proto__" ∉ observed_names repos →
     aggregatedSkills repos = []
     ↔ ∀ r, r ∈ repos →
            (language r = None ∨ language r = Some "") ∧ topics r = []).
Proof.
  assert (Hnames : ∀ n, n ∈ name <$> aggregatedSkills repos
    ↔ n ≠ "__proto__" ∧ ∃ r, r ∈ repos ∧ n ∈ counted_keys r).
  { intros n. rewrite aggregatedSkills_observed. unfold observed_names.
    rewrite elem_of_list_to_set, list_elem_of_bind. split.
    - intros [(r & ? & ?) ?]. split; [done|by exists r].
    - intros [? (r & ? & ?)]. split; [by exists r|done]. }
  split.
  - intros n Hn. rewrite Hnames. setoid_rewrite elem_of_counted_keys.
    split; [by intros [_ ?]|by split].
  - intros Hproto.
    assert (Hkeys : ∀ r, counted_keys r = []
      ↔ (language r = None ∨ language r = Some "") ∧ topics r = []).
    { intros r. unfold counted_keys. destruct (language r) as [l|].
      - destruct (decide (l = "")) as [->|Hl]; cbn.
        + split; [by split; [right|]|by intros [_ ?]].
        + split; [done|]. intros [[?|[= ?]] _]; done.
      - cbn. split; [by split; [left|]|by intros [_ ?]]. }
    setoid_rewrite <- Hkeys. split.
    + intros Hempty r Hr. destruct (counted_keys r) as [|k ks] eqn:Hk; [done|].
      assert (Hin : k ∈ name <$> aggregatedSkills repos).
      { apply Hnames. split.
        - intros ->. apply Hproto. unfold observed_names.
          rewrite elem_of_list_to_set, list_elem_of_bind. exists r.
          split; [|done]. rewrite Hk. apply elem_of_cons. by left.
        - exists r. split; [done|]. rewrite Hk. apply elem_of_cons. by left. }
      rewrite Hempty in Hin. by apply elem_of_nil in Hin.
    + intros Hall. destruct (aggregatedSkills repos) as [|s l] eqn:Hagg; [done|].
      assert (Hin : name s ∈ name <$> s :: l)
        by (rewrite fmap_cons; apply elem_of_cons; by left).
      apply Hnames in Hin as [_ (r & Hr & Hk)].
      rewrite (Hall r Hr) in Hk. by apply elem_of_nil in Hk.
Qed.

Lemma aggregated_names_witness :
  "cli" ∈ name <$> aggregatedSkills go_cli.
Proof.
  apply (proj1 (aggregated_names go_cli) "cli"); [done|].
  exists (repo_of (Some "Go") ["cli"]). split; [apply list_elem_of_here|].
  right. apply list_elem_of_here.
Defined.

(** A name unknown to [Object.prototype] is counted exactly, whatever
    other names are counted beside it. *)
Lemma fold_increment_count_key ks k :
  JS.Object_prototype k = None →
  JS.own (fold_left increment ks []) k =
    if decide (count_occ string_dec ks k = 0%nat) then None
    else Some (JS.Num (Z.of_nat (count_occ string_dec ks k))).
Proof.
  intros Hk. induction ks as [|k0 ks IH] using rev_ind; [done|].
  rewrite fold_left_app. cbn [fold_left].
  rewrite count_occ_app. cbn [count_occ].
  unfold increment at 1, JS.set.
  destruct (decide (k0 = "__proto__")) as [->|_].
  - destruct (string_dec "__proto__" k) as [<-|_]; [done|].
    by replace (count_occ string_dec ks k + 0)%nat
      with (count_occ string_dec ks k) by lia.
  - rewrite own_put. destruct (string_dec k0 k) as [->|Hne].
    + rewrite decide_True by done. rewrite decide_False by lia.
      unfold JS.get. rewrite IH, Hk.
      destruct (decide (count_occ string_dec ks k = 0%nat)) as [->|Hpos]; [done|].
      cbn [JS.or_zero_plus_one]. rewrite decide_False by lia.
      do 2 f_equal. lia.
    + rewrite decide_False by done. rewrite IH.
      by replace (count_occ string_dec ks k + 0)%nat
        with (count_occ string_dec ks k) by lia.
Qed.

(** Miscounting is confined to the names of [Object.prototype]: for every
    repository list, a name that is not such a member is listed exactly
    when it occurs, with its number of occurrences as count. *)
Theorem counts_exact_off_prototype repos n c :
  JS.Object_prototype n = None →
  {| name := n; count := c |} ∈ aggregatedSkills repos
  ↔ (0 < occurrences n repos)%nat ∧ c = JS.Num (Z.of_nat (occurrences n repos)).
Proof.
  intros Hn. rewrite elem_of_aggregatedSkills, skillCounts_keys.
  rewrite fold_increment_count_key by done.
  rewrite counted_keys_occurrences.
  destruct (decide (occurrences n repos = 0%nat)) as [->|Hpos].
  - split; [done|]. intros [? _]. lia.
  - split; [intros [= <-]; split; [lia|done]|by intros [_ ->]].
Qed.

Lemma counts_exact_off_prototype_witness :
  {| name := "Go"; count := JS.Num 2 |} ∈ aggregatedSkills mixed_names.
Proof.
  apply (proj2 (counts_exact_off_prototype mixed_names "Go" (JS.Num 2) eq_refl)).
  split; [vm_compute; lia|by vm_compute].
Defined.

(** ** The order among equal counts *)

Section ObjOrder.
Context {V : Type}.
Implicit Types (o : JS.Obj V) (k : string) (v : V).

(** A new key is created last; an existing key keeps its place. *)
Lemma put_keys_exact o k v :
  (JS.put o k v).*1 = if decide (k ∈ o.*1) then o.*1 else o.*1 ++ [k].
Proof.
  induction o as [|[k0 v0] o IH].
  - destruct (decide (k ∈ [].*1)) as [Hin|]; [by apply elem_of_nil in Hin|done].
  - cbn [JS.put]. rewrite fmap_cons. cbn [fst].
    destruct (decide (k0 = k)) as [->|Hne].
    + rewrite fmap_cons. cbn [fst].
      destruct (decide (k ∈ k :: o.*1)) as [|Hnin]; [done|].
      destruct Hnin. apply elem_of_cons. by left.
    + rewrite fmap_cons, IH. cbn [fst].
      destruct (decide (k ∈ o.*1)) as [Hin|Hnin],
               (decide (k ∈ k0 :: o.*1)) as [Hin'|Hnin']; try done.
      * destruct Hnin'. apply elem_of_cons. by right.
      * apply elem_of_cons in Hin' as [->|?]; [by destruct Hne|by destruct Hnin].
Qed.

(** Without array indices among the keys, [Object.entries] lists the
    properties in creation order. *)
Lemma Object_entries_no_index o :
  (∀ k, k ∈ o.*1 → JS.array_index k = None) → JS.Object_entries o = o.
Proof.
  intros Hno. unfold JS.Object_entries.
  assert (Hfilter : List.filter JS.is_index o = []
                    ∧ List.filter (λ e, negb (JS.is_index e)) o = o).
  { induction o as [|[k v] o IH]; [done|].
    assert (Hk : JS.is_index (k, v) = false).
    { unfold JS.is_index. cbn [fst]. rewrite (Hno k); [done|].
      rewrite fmap_cons. apply elem_of_cons. by left. }
    cbn [List.filter]. rewrite Hk. cbn [negb].
    destruct IH as [-> ->]; [|done].
    intros k' Hk'. apply Hno. rewrite fmap_cons. apply elem_of_cons. by right. }
  destruct Hfilter as [-> ->]. done.
Qed.
End ObjOrder.

Section Precedes.
Context {A : Type}.

Lemma precedes_nil (x y : A) : ¬ precedes x y [].
Proof. intros (l1 & l2 & l3 & H). by destruct l1. Qed.

Lemma precedes_cons (x y z : A) l : precedes x y l → precedes x y (z :: l).
Proof. intros (l1 & l2 & l3 & ->). by exists (z :: l1), l2, l3. Qed.

Lemma precedes_fmap {B} (f : A → B) x y l :
  precedes x y l → precedes (f x) (f y) (f <$> l).
Proof.
  intros (l1 & l2 & l3 & ->). exists (f <$> l1), (f <$> l2), (f <$> l3).
  by rewrite fmap_app, fmap_cons, fmap_app, fmap_cons.
Qed.

Lemma precedes_filter (P : A → Prop) `{∀ x, Decision (P x)} x y l :
  P x → P y → precedes x y l → precedes x y (filter P l).
Proof.
  intros Hx Hy (l1 & l2 & l3 & ->).
  exists (filter P l1), (filter P l2), (filter P l3).
  rewrite filter_app, filter_cons_True by done.
  by rewrite filter_app, filter_cons_True by done.
Qed.

Lemma precedes_filter_inv (P : A → Prop) `{∀ x, Decision (P x)} x y l :
  precedes x y (filter P l) → precedes x y l.
Proof.
  induction l as [|z l IH]; [done|].
  rewrite filter_cons. destruct (decide (P z)) as [Hz|Hz].
  - intros (l1 & l2 & l3 & Heq). destruct l1 as [|z' l1].
    + injection Heq as -> Heq.
      assert (Hy : y ∈ filter P l).
      { rewrite Heq. apply elem_of_app. right. apply elem_of_cons. by left. }
      apply list_elem_of_filter in Hy as [_ Hy].
      apply list_elem_of_split in Hy as (m1 & m2 & ->). by exists [], m1, m2.
    + injection Heq as -> Heq. apply precedes_cons, IH. by exists l1, l2, l3.
  - intros Hprec. by apply precedes_cons, IH.
Qed.
End Precedes.

Lemma increment_keys_exact o k :
  (increment o k).*1 =
    if decide (k = "__proto__" ∨ k ∈ o.*1) then o.*1 else o.*1 ++ [k].
Proof.
  unfold increment, JS.set. destruct (decide (k = "__proto__")) as [->|Hk].
  - rewrite decide_True; [done|by left].
  - rewrite put_keys_exact. destruct (decide (k ∈ o.*1)) as [Hin|Hnin].
    + rewrite decide_True; [done|by right].
    + rewrite decide_False; [done|]. by intros [?|?].
Qed.

(** Keys are created in the order in which the names are first counted. *)
Lemma keys_first_seen ks a b :
  precedes a b (fold_left increment ks []).*1 →
  ∃ ks1 ks2, ks = ks1 ++ a :: ks2 ∧ (a ∉ ks1) ∧ (b ∉ ks1).
Proof.
  revert a b. induction ks as [|k ks IH] using rev_ind; intros a b Hprec.
  - by apply precedes_nil in Hprec.
  - rewrite fold_left_app in Hprec. cbn [fold_left] in Hprec.
    rewrite increment_keys_exact in Hprec.
    destruct (decide (k = "__proto__" ∨ k ∈ (fold_left increment ks []).*1))
      as [_|Hnew].
    { destruct (IH a b Hprec) as (ks1 & ks2 & -> & Ha & Hb).
      exists ks1, (ks2 ++ [k]). split; [by rewrite <- (assoc_L (++))|done]. }
    destruct Hprec as (l1 & l2 & l3 & Heq).
    destruct l3 as [|z l3 _] using rev_ind.
    + replace (l1 ++ a :: l2 ++ [b]) with ((l1 ++ a :: l2) ++ [b]) in Heq
        by by rewrite <- (assoc_L (++)).
      apply app_inj_tail in Heq as [Hkeys <-].
      assert (Ha : a ∈ ks).
      { assert (Hin : a ∈ (fold_left increment ks []).*1).
        { rewrite Hkeys. apply elem_of_app. right. apply elem_of_cons. by left. }
        apply fold_increment_keys in Hin as [?%elem_of_nil|[? _]]; done. }
      apply list_elem_of_split_l in Ha as (ks1 & ks2 & -> & Ha).
      exists ks1, (ks2 ++ [k]). split; [by rewrite <- (assoc_L (++))|].
      split; [done|]. intros Hk. apply Hnew. right.
      apply fold_increment_keys. right. split.
      * apply elem_of_app. by left.
      * intros ->. apply Hnew. by left.
    + replace (l1 ++ a :: l2 ++ b :: l3 ++ [z])
        with ((l1 ++ a :: l2 ++ b :: l3) ++ [z]) in Heq.
      2: { rewrite <- (assoc_L (++)). cbn. do 2 f_equal.
           by rewrite <- (assoc_L (++)). }
      apply app_inj_tail in Heq as [Hkeys _].
      destruct (IH a b) as (ks1 & ks2 & -> & Ha & Hb); [by exists l1, l2, l3|].
      exists ks1, (ks2 ++ [k]). split; [by rewrite <- (assoc_L (++))|done].
Qed.

Lemma by_count_ties c a b :
  count a = c → count b = c → (JS.SortCompare by_count a b <=? 0) = true.
Proof.
  intros Ha Hb. unfold JS.SortCompare, by_count, JS.minus. rewrite Ha, Hb.
  destruct c; [apply Z.leb_le; lia|done].
Qed.

(** Ties are broken by first appearance.  When every count is a number
    (so that the comparator is consistent and a stable sort has one
    result) and no counted name is an array index (a canonical decimal
    number), of two aggregated skills with the same count the one listed
    earlier was seen first: reading the repositories in order, each with
    its language before its topics, the later skill's name does not occur
    before the first occurrence of the earlier skill's name. *)
Theorem equal_counts_first_seen repos a b :
  (∀ s, s ∈ aggregatedSkills repos → ∃ x, count s = JS.Num x) →
  (∀ k, k ∈ repos ≫= counted_keys → JS.array_index k = None) →
  precedes a b (aggregatedSkills repos) → count a = count b →
  ∃ ks1 ks2, repos ≫= counted_keys = ks1 ++ name a :: ks2
             ∧ (name a ∉ ks1) ∧ (name b ∉ ks1).
Proof.
  intros _ Hno Hprec Hcount. apply keys_first_seen.
  rewrite <- skillCounts_keys.
  replace (skillCounts repos).*1 with (name <$> (to_skill <$> skillCounts repos))
    by by rewrite <- list_fmap_compose.
  apply precedes_fmap.
  apply (precedes_filter_inv (λ s, count s = count a)).
  rewrite <- (Object_entries_no_index (skillCounts repos)).
  - rewrite <- (stable_sort_filter _ (λ s, count s = count a))
      by apply by_count_ties.
    by apply precedes_filter.
  - intros k Hk. apply Hno. rewrite skillCounts_keys in Hk.
    apply fold_increment_keys in Hk as [?%elem_of_nil|[? _]]; done.
Qed.

Lemma equal_counts_first_seen_witness :
  ∃ ks1 ks2, three_names ≫= counted_keys = ks1 ++ "cli" :: ks2
             ∧ ("cli" ∉ ks1) ∧ ("api" ∉ ks1).
Proof.
  apply (equal_counts_first_seen three_names
    {| name := "cli"; count := JS.Num 1 |} {| name := "api"; count := JS.Num 1 |}).
  - intros s Hs.
    change (aggregatedSkills three_names)
      with [ {| name := "Go"; count := JS.Num 1 |};
             {| name := "cli"; count := JS.Num 1 |};
             {| name := "api"; count := JS.Num 1 |} ] in Hs.
    repeat (apply elem_of_cons in Hs as [->|Hs]; [by eexists|]).
    by apply elem_of_nil in Hs.
  - intros k Hk. cbn in Hk.
    repeat (apply elem_of_cons in Hk as [->|Hk]; [reflexivity|]).
    by apply elem_of_nil in Hk.
  - by exists [{| name := "Go"; count := JS.Num 1 |}], [], [].
  - reflexivity.
Defined.

(** * Further properties of the rendered page *)

Lemma elem_of_finalSkills repos d :
  d ∈ finalSkills repos →
  (∃ s, s ∈ aggregatedSkills repos
        ∧ d = {| skill_name := name s;
                 icon := icon_or_FaCode (JS.get skillIconMap (name s)) |})
  ∨ (∃ e, e ∈ skillIconMap ∧ (e.1 ∉ name <$> aggregatedSkills repos)
          ∧ d = {| skill_name := e.1; icon := Jsx e.2 |}).
Proof.
  unfold finalSkills, mostUsedSkills, remainingSkills.
  rewrite Object_entries_skillIconMap, elem_of_app, !list_elem_of_fmap.
  intros [(s & -> & Hs)|(e & -> & He)].
  - left. by exists s.
  - right. apply list_elem_of_filter in He as [Hnot He].
    exists e. split; [done|]. split; [|done]. by rewrite <- elem_of_aggregatedSet.
Qed.

(** The icon of an entry of the skills section depends on its name only,
    whether the entry was aggregated or padded: a name of the lookup table
    gets the table's icon, and a name that neither the table nor
    [Object.prototype] knows gets the generic [FaCode] icon. *)
Theorem icons_by_name repos d :
  d ∈ finalSkills repos →
  icon d = icon_or_FaCode (JS.get skillIconMap (skill_name d))
  ∧ (∀ i, (skill_name d, i) ∈ skillIconMap → icon d = Jsx i)
  ∧ (skill_name d ∉ skillIconMap.*1 → JS.Object_prototype (skill_name d) = None →
     icon d = Jsx FaCode).
Proof.
  intros Hd.
  assert (Hicon : icon d = icon_or_FaCode (JS.get skillIconMap (skill_name d))).
  { apply elem_of_finalSkills in Hd as [(s & _ & ->)|([k i] & He & _ & ->)]; [done|].
    cbn. unfold JS.get.
    by rewrite (proj2 (own_Some skillIconMap k i skillIconMap_NoDup) He). }
  split; [done|]. rewrite Hicon. unfold JS.get. split.
  - intros i Hi. by rewrite (proj2 (own_Some skillIconMap _ i skillIconMap_NoDup) Hi).
  - intros Hnot Hproto. by rewrite (proj2 (own_None skillIconMap _) Hnot), Hproto.
Qed.

Lemma icons_by_name_witness :
  icon {| skill_name := "Go"; icon := Jsx FaCode |} = Jsx FaCode.
Proof.
  apply (proj2 (proj2 (icons_by_name go_cli {| skill_name := "Go"; icon := Jsx FaCode |}
    (list_elem_of_here _ _)))).
  - apply (bool_decide_unpack _). by vm_compute.
  - reflexivity.
Defined.

(** A baseline is always shown: the skills section has at least the nine
    entries of the lookup table and at most nine more than were
    aggregated; when nothing is aggregated it is the lookup table itself,
    in table order. *)
Theorem baseline_skills repos :
  (9 ≤ length (finalSkills repos))%nat
  ∧ (length (finalSkills repos) ≤ length (aggregatedSkills repos) + 9)%nat
  ∧ (aggregatedSkills repos = [] →
     finalSkills repos
     = (λ e, {| skill_name := e.1; icon := Jsx e.2 |}) <$> skillIconMap).
Proof.
  assert (Hlen : length (finalSkills repos)
    = length (skill_name <$> finalSkills repos)) by by rewrite length_fmap.
  split; [|split].
  - rewrite Hlen. change 9%nat with (length skillIconMap.*1).
    apply submseteq_length, NoDup_submseteq; [apply skillIconMap_NoDup|].
    intros n Hn. rewrite finalSkills_names, elem_of_app.
    destruct (decide (n ∈ name <$> aggregatedSkills repos)); [by left|right].
    by apply list_elem_of_filter.
  - rewrite Hlen, finalSkills_names, length_app, length_fmap.
    apply Nat.add_le_mono_l.
    change 9%nat with (length skillIconMap.*1). apply length_filter.
  - intros Hempty. unfold finalSkills. rewrite Hempty. by vm_compute.
Qed.

Lemma baseline_skills_witness :
  finalSkills [repo_of None []]
  = (λ e, {| skill_name := e.1; icon := Jsx e.2 |}) <$> skillIconMap.
Proof.
  apply (proj2 (proj2 (baseline_skills [repo_of None []]))). reflexivity.
Defined.

Lemma language_badge_counted r n :
  language_badge (render_card r) = Some n ↔ language r = Some n ∧ n ≠ "".
Proof.
  cbn. unfold truthy_string. destruct (language r) as [l|]; cbn.
  - destruct (decide (l = "")) as [->|Hl].
    + split; [done|]. by intros [[= <-] ?].
    + split; [by intros [= ->]|by intros [[= ->] _]].
  - split; [done|by intros [? _]].
Qed.

(** The skills section covers the project grid: every language badge and
    every topic chip shown on a card, [__proto__] excepted, is the name of
    an entry of the skills section. *)
Theorem badges_are_skills (st : PageState) c n :
  c ∈ project_cards st →
  language_badge c = Some n ∨ n ∈ topic_chips c →
  n ≠ "__proto__" →
  n ∈ skill_name <$> finalSkills (repos st).
Proof.
  intros Hc Hn Hproto. unfold project_cards in Hc.
  apply list_elem_of_fmap in Hc as (r & -> & Hr).
  rewrite finalSkills_names, elem_of_app. left.
  apply aggregatedSkills_observed. split; [|done].
  unfold observed_names. rewrite elem_of_list_to_set, list_elem_of_bind.
  exists r. split; [|done]. apply elem_of_counted_keys.
  destruct Hn as [Hn|Hn]; [left; by apply language_badge_counted|by right].
Qed.

Lemma badges_are_skills_witness :
  "cli" ∈ skill_name <$> finalSkills go_cli.
Proof.
  apply (badges_are_skills {| user := None; repos := go_cli |}
    (render_card (repo_of (Some "Go") ["cli"])) "cli").
  - apply list_elem_of_here.
  - right. apply list_elem_of_here.
  - done.
Defined.

(** The target of the blog link always starts with [http]. *)
Theorem blog_link_absolute (u : option GitHubUser) (target : string) :
  blog_link u = Some target → JS.startsWith "http" target = true.
Proof.
  unfold blog_link. destruct u as [p|]; [|done].
  destruct (decide (blog p = "")); [done|].
  destruct (JS.startsWith "http" (blog p)) eqn:Hhttp; intros [= <-]; [done|].
  unfold JS.startsWith. by apply (prefix_app_r "http" "https://").
Qed.

Lemma blog_link_absolute_witness :
  JS.startsWith "http" "https://sohel22z.github.io" = true.
Proof. exact (blog_link_absolute (Some sample_user) _ eq_refl). Defined.

(** * What the page holds after mount *)

(** The profile is set exactly when the profile request was answered with
    a success whose body parses, whatever becomes of the repository
    request. *)
Theorem profile_set_iff env net u :
  user (page (mounted env net)) = Some u
  ↔ ∃ r1, users_endpoint net (user_request env) = Normal r1
          ∧ ok r1 = true ∧ json r1 = Normal u.
Proof.
  unfold mounted. fetch_cases env net; (split;
    [ intros [= <-]; by eexists
    | intros (? & [= <-] & ? & ?); congruence ]).
Qed.

(** Projects are shown only after a complete first step: a non-empty
    repository list after mount means that step 1 completed and that the
    repository request was answered with a success whose body is a
    non-empty array, of which the list is the top six. *)
Theorem projects_shown_only_if env net :
  repos (page (mounted env net)) ≠ [] →
  profile_completes env net
  ∧ ∃ r2 data, repos_endpoint net (repos_request env) = Normal r2
      ∧ ok r2 = true ∧ json r2 = Normal (ArrayOf data) ∧ data ≠ []
      ∧ repos (page (mounted env net)) = JS.slice0 6 (JS.Array_sort by_stars data).
Proof.
  generalize (profile_completes_cases env net).
  unfold mounted. fetch_cases env net; intros Hpc Hne; try done.
  all: split; [by apply Hpc|].
  all: eexists _, _; split; [done|]; split; [done|]; split; [done|].
  all: split; [|done]; by intros ->.
Qed.

Lemma projects_shown_only_if_witness :
  profile_completes sample_env profile_refused.
Proof.
  apply (projects_shown_only_if sample_env profile_refused). by vm_compute.
Defined.
